(** * Historian: the sampling-and-write pipeline and the freshness classifier

    A shallow embedding of [app/historian_ui.py] (value cache, cached reader,
    batch writer, pending-queue trim, the raw and the loop/PID sampling loops,
    the run flags of the two loops) and of the freshness classification of
    [app/grafana_view_wizard.py] ([api_influx_tags_catalog]).

    Python integers are [Z]; Python floats are the kernel's binary64 floats;
    a [dict] used as a map is a [gmap]; a [list] used as a queue is a [list].
    The collaborators (wall clock, OPC UA server, InfluxDB, the JSON state
    files) are an interface over an abstract world state. *)

From Stdlib Require Import ZArith List Bool Lia Ascii String.
From Stdlib Require Import Floats.
From stdpp Require Import gmap strings list sorting.

#[local] Open Scope Z_scope.

(** ** Module constants of [historian_ui.py] *)

Definition RAW_TAG_MEASUREMENT : string := "selected_tag_data".
Definition RAW_LOOP_MEASUREMENT : string := "pid_loop_hf_raw".
Definition RAW_LOOP_RETENTION_POLICY : string := "hf_raw_400d".
Definition WRITE_BATCH_SIZE : Z := 5000.
Definition MAX_CACHE_AGE_SECONDS : Z := 30.
Definition MAX_PENDING_POINTS : Z := 120000.
Definition LOOP_CACHE_MAX_AGE_SECONDS : Z := 300.
Definition LOOP_MAX_BACKFILL_SECONDS : Z := 10.

(** ** Python values and data *)

(** What [read_value()] of an OPC UA node may hand back.  [POther] stands for
    every value that is neither [None], a [bool], an [int], a [float] nor a
    [str] (a [datetime], [bytes], a list, ...), carried by its [repr]. *)
Inductive PyVal : Type :=
| PNone
| PBool (b : bool)
| PInt (z : Z)
| PFloat (f : float)
| PStr (s : string)
| POther (repr : string).

(** A value of the [fields] dict of a point: a float or an int. *)
Inductive FieldVal : Type :=
| FFloat (f : float)
| FInt (z : Z).

(** A point as handed to [influx.write_points]: the dict
    [{"measurement": .., "tags": {..}, "time": .., "fields": {..}}].  The inner
    dicts are association lists in insertion order. *)
Record Point : Type := mkPoint {
  measurement : string;
  tags : list (string * string);
  time : Z;
  fields : list (string * FieldVal)
}.

(** An entry of the value cache: [{"value": value, "ts": now}], the timestamp
    in microseconds since the epoch (the resolution of [datetime]). *)
Record CachedReading : Type := mkCached {
  cached_value : float;
  cached_ts : Z
}.

(** An item of [load_selection()["tags"]]: [item.get("nodeid", "")] and
    [item.get("label", nodeid)]. *)
Record TagItem : Type := mkTagItem {
  item_nodeid : string;
  item_label : option string
}.

(** An entry of [load_loop_assignments()["loops"]], each field already passed
    through [str(loop.get(key, ""))]. *)
Record LoopEntry : Type := mkLoopEntry {
  loop_id : string;
  machine_id : string;
  pv_nodeid : string;
  sp_nodeid : string;
  co_nodeid : string
}.

(** ** Outcomes and the collaborators *)

(** The outcome of a call: a returned value, or a raised [Exception] carried by
    its message, which is what [str(exc)] gives. *)
Inductive Outcome (A : Type) : Type :=
| Returned (a : A)
| Raised (msg : string).
Arguments Returned {A} a.
Arguments Raised {A} msg.

(** The external collaborators over a world state [World]:
    - [wall_clock]: the wall clock in microseconds since the epoch
      ([datetime.now(timezone.utc)], [time.time()]);
    - [time_sleep]: [time.sleep], its argument in milliseconds;
    - [opc_read_value]: [client.get_node(nodeid).read_value()] on the shared
      OPC UA client;
    - [influx_write_points]: [influx.write_points(batch, time_precision="s",
      batch_size=WRITE_BATCH_SIZE, retention_policy=..)], the retention policy
      being [""] when the keyword is not passed;
    - [load_selection], [load_loop_assignments]: the JSON state files. *)
Class Collaborators (World : Type) : Type := {
  wall_clock : World -> Z * World;
  time_sleep : Z -> World -> World;
  opc_read_value : string -> World -> Outcome PyVal * World;
  influx_write_points : list Point -> string -> World -> Outcome unit * World;
  load_selection : World -> list TagItem * World;
  load_loop_assignments : World -> list LoopEntry * World
}.

(** ** A state-and-exception monad for the Python code *)

Module Py.

Definition t (World A : Type) : Type := World -> Outcome A * World.

Definition ret {World A} (a : A) : t World A := fun w => (Returned a, w).

Definition raise {World A} (msg : string) : t World A := fun w => (Raised msg, w).

Definition bind {World A B} (c : t World A) (k : A -> t World B) : t World B :=
  fun w =>
    match c w with
    | (Returned a, w') => k a w'
    | (Raised msg, w') => (Raised msg, w')
    end.

(** [try: body  except Exception as exc: handler(str(exc))]: what the body
    did to the world before it raised stays done. *)
Definition try_except {World A} (body : t World A) (handler : string -> t World A)
  : t World A :=
  fun w =>
    match body w with
    | (Returned a, w') => (Returned a, w')
    | (Raised msg, w') => handler msg w'
    end.

(** A collaborator call that cannot fail. *)
Definition lift {World A} (f : World -> A * World) : t World A :=
  fun w => let '(a, w') := f w in (Returned a, w').

(** A collaborator call that may raise. *)
Definition call {World A} (f : World -> Outcome A * World) : t World A := f.

End Py.

Notation "x <- c ;; k" := (Py.bind c (fun x => k))
  (at level 100, c at next level, right associativity).

(** ** [safe_float] *)

(** [float(z)] for an [int]: round to nearest even, [OverflowError] when the
    integer is beyond the range of a binary64 float. *)
Definition float_of_int (z : Z) : Outcome float :=
  match binary_normalize prec emax z 0 false with
  | S754_infinity _ => Raised "int too large to convert to float"
  | sf => Returned (SF2Prim sf)
  end.

(** [float(b)] for a [bool]. *)
Definition float_of_bool (b : bool) : float :=
  if b then PrimFloat.one else PrimFloat.zero.

(** [repr(value)] as far as the message of [safe_float] needs it; the digits of
    a number are not spelled out. *)
Definition repr (v : PyVal) : string :=
  match v with
  | PNone => "None"
  | PBool true => "True"
  | PBool false => "False"
  | PInt _ => "<int>"
  | PFloat _ => "<float>"
  | PStr s => "'" +:+ s +:+ "'"
  | POther r => r
  end.

Definition safe_float (value : PyVal) : Outcome float :=
  match value with
  | PBool b => Returned (float_of_bool b)
  | PInt z => float_of_int z
  | PFloat f => Returned f
  | _ => Raised ("Non-numeric value: " +:+ repr value)
  end.

(** ** Small Python idioms *)

(** [len(l)] *)
Definition len {A} (l : list A) : Z := Z.of_nat (length l).

(** [l[:n]] and [l[n:]] for a slice bound [n]; the bounds the code passes are
    never negative. *)
Definition slice_to {A} (n : Z) (l : list A) : list A := take (Z.to_nat n) l.
Definition slice_from {A} (n : Z) (l : list A) : list A := drop (Z.to_nat n) l.

(** [list(range(a, b))] *)
Definition py_range (a b : Z) : list Z := seqZ a (b - a).

(** [int(x)] of a non-integral number of seconds given in microseconds:
    truncation toward zero. *)
Definition whole_seconds (microseconds : Z) : Z := Z.quot microseconds 1000000.

(** [s.strip()]: leading and trailing white space removed (the ASCII white
    space of [str.isspace]). *)
Definition is_space (c : ascii) : bool :=
  let n := nat_of_ascii c in
  ((9 <=? n)%nat && (n <=? 13)%nat) || ((28 <=? n)%nat && (n <=? 32)%nat).

Fixpoint lstrip (s : string) : string :=
  match s with
  | String c s' => if is_space c then lstrip s' else s
  | EmptyString => EmptyString
  end.

Fixpoint rstrip (s : string) : string :=
  match s with
  | String c s' =>
      match rstrip s' with
      | EmptyString => if is_space c then EmptyString else String c EmptyString
      | r => String c r
      end
  | EmptyString => EmptyString
  end.

Definition strip (s : string) : string := rstrip (lstrip s).

(** [not s] for a string. *)
Definition is_empty (s : string) : bool :=
  match s with EmptyString => true | _ => false end.

(** [s or default] for strings. *)
Definition str_or (s default : string) : string :=
  if is_empty s then default else s.

(** [int(age or 0)] for an age that is [None] or an [int]. *)
Definition int_or_0 (age : option Z) : Z :=
  match age with Some a => a | None => 0 end.

(** [1 if flag else 0] *)
Definition flag01 (flag : bool) : Z := if flag then 1 else 0.

(** The four results of [read_numeric_with_cache]:
    [(value, from_cache, cache_age, error)]. *)
Definition ReadTuple : Type := option float * bool * option Z * string.

(** ** Reading points back *)

(** [d.get(key)] on a dict kept as an association list. *)
Fixpoint assoc {V : Type} (key : string) (d : list (string * V)) : option V :=
  match d with
  | [] => None
  | (k, v) :: d' => if String.eqb k key then Some v else assoc key d'
  end.

Definition tag (name : string) (p : Point) : option string := assoc name (tags p).

(** The timestamps of the points tagged with loop id [lid], in the order the
    points stand. *)
Definition ticks_of (lid : string) (points : list Point) : list Z :=
  time <$> filter (fun p => tag "loop_id" p = Some lid) points.


(** The guard of the loop/PID loop on an entry, [if not loop_id or not
    pv_nodeid or not sp_nodeid or not co_nodeid: continue]. *)
Definition unconfigured (loop : LoopEntry) : bool :=
  is_empty (strip (loop_id loop)) || is_empty (strip (pv_nodeid loop))
  || is_empty (strip (sp_nodeid loop)) || is_empty (strip (co_nodeid loop)).

(** The value of a read tuple, [None] when the read gave nothing. *)
Definition tuple_value (r : option float * bool * option Z * string) : option float :=
  fst (fst (fst r)).

(** ** The pipeline of [historian_ui.py] *)

Section Pipeline.

Context {World : Type} `{Collaborators World}.

(** [utc_now()], in microseconds since the epoch. *)
Definition utc_now : Py.t World Z := Py.lift wall_clock.

(** [int(time.time())] and [int(utc_now().timestamp())]. *)
Definition now_seconds : Py.t World Z :=
  now <- Py.lift wall_clock ;; Py.ret (whole_seconds now).

(** The live read, [safe_float(client.get_node(nodeid).read_value())]: it
    raises when the server does not answer and when the value is not a
    number. *)
Definition live_read (nodeid : string) : Py.t World float :=
  raw <- Py.call (opc_read_value nodeid) ;;
  Py.call (fun w => (safe_float raw, w)).

(** [read_numeric_with_cache(client, nodeid, cache, max_cache_age_seconds)].
    The cache is a dict mutated in place: the function hands back the cache
    as it leaves it. *)
Definition read_numeric_with_cache (nodeid : string)
    (cache : gmap string CachedReading) (max_cache_age_seconds : Z)
  : Py.t World (ReadTuple * gmap string CachedReading) :=
  now <- utc_now ;;
  Py.try_except
    (value <- live_read nodeid ;;
     Py.ret ((Some value, false, Some 0, ""),
             <[nodeid := mkCached value now]> cache))
    (fun exc =>
       match cache !! nodeid with
       | Some cached =>
           let age := whole_seconds (now - cached_ts cached) in
           if age <=? max_cache_age_seconds
           then Py.ret ((Some (cached_value cached), true, Some age, exc), cache)
           else Py.ret ((None, false, None, exc), cache)
       | None => Py.ret ((None, false, None, exc), cache)
       end).

(** What the [except] branch hands back for a failed live read at [now]. *)
Definition fallback_tuple (cache : gmap string CachedReading) (nodeid : string)
    (now max_age : Z) (err : string) : ReadTuple :=
  match cache !! nodeid with
  | Some cached =>
      if whole_seconds (now - cached_ts cached) <=? max_age
      then (Some (cached_value cached), true,
            Some (whole_seconds (now - cached_ts cached)), err)
      else (None, false, None, err)
  | None => (None, false, None, err)
  end.

(** The [while pending_points:] loop of [write_pending_points].  Every turn
    that does not stop removes a non-empty batch, so [length pending_points]
    turns are enough; [fuel] counts them. *)
Fixpoint write_pending_loop (fuel : nat) (retention_policy : string)
    (pending_points : list Point) (written_total : Z)
  : Py.t World (Z * string * list Point) :=
  match fuel, pending_points with
  | _, [] => Py.ret (written_total, "", [])
  | O, _ => Py.ret (written_total, "", pending_points)
  | S fuel', _ =>
      let batch := slice_to WRITE_BATCH_SIZE pending_points in
      failed <- Py.try_except
                  (_ <- Py.call (influx_write_points batch retention_policy) ;;
                   Py.ret None)
                  (fun exc => Py.ret (Some exc)) ;;
      match failed with
      | Some last_error => Py.ret (written_total, last_error, pending_points)
      | None =>
          write_pending_loop fuel' retention_policy
            (slice_from (len batch) pending_points)
            (written_total + len batch)
      end
  end.

(** [write_pending_points(influx, pending_points, retention_policy)]:
    [(written_total, last_error)] and the list as it is left. *)
Definition write_pending_points (pending_points : list Point)
    (retention_policy : string) : Py.t World (Z * string * list Point) :=
  write_pending_loop (length pending_points) retention_policy pending_points 0.

(** [flushed rp w q n w' q']: starting in world [w] with queue [q], InfluxDB
    was handed, one call after the other, the first [WRITE_BATCH_SIZE] points
    of the queue as it then was, accepted each of these batches, and each
    accepted batch was deleted from the front; [n] points went out in all,
    leaving world [w'] and queue [q']. *)
Inductive flushed (retention_policy : string)
  : World -> list Point -> Z -> World -> list Point -> Prop :=
| flushed_none w q : flushed retention_policy w q 0 w q
| flushed_batch w q w1 n w' q' :
    q <> [] ->
    influx_write_points (slice_to WRITE_BATCH_SIZE q) retention_policy w
      = (Returned tt, w1) ->
    flushed retention_policy w1
      (slice_from (len (slice_to WRITE_BATCH_SIZE q)) q) n w' q' ->
    flushed retention_policy w q (len (slice_to WRITE_BATCH_SIZE q) + n) w' q'.

(** The trim step of both loops:
    [if len(pending_points) > MAX_PENDING_POINTS:
         del pending_points[: len(pending_points) - MAX_PENDING_POINTS]]. *)
Definition trim_pending (pending_points : list Point) : list Point :=
  if MAX_PENDING_POINTS <? len pending_points
  then slice_from (len pending_points - MAX_PENDING_POINTS) pending_points
  else pending_points.

(** The tail of a cycle of either loop: extend the pending list with the new
    points, then, when the list is not empty, flush it and trim it. *)
Definition enqueue_flush_trim (pending_points new_points : list Point)
    (retention_policy : string) : Py.t World (list Point) :=
  let pending_points := pending_points ++ new_points in
  match pending_points with
  | [] => Py.ret pending_points
  | _ =>
      r <- write_pending_points pending_points retention_policy ;;
      let '(_, _, pending_points) := r in
      Py.ret (trim_pending pending_points)
  end.

(** *** The raw tag loop *)

Definition raw_point (nodeid label : string) (ts : Z) (numeric_value : float)
    (from_cache : bool) (cache_age : option Z) (read_error : string) : Point :=
  mkPoint RAW_TAG_MEASUREMENT
    [("nodeid", nodeid); ("label", label)]
    ts
    [("value", FFloat numeric_value);
     ("from_cache", FInt (flag01 from_cache));
     ("cache_age_s", FInt (int_or_0 cache_age));
     ("read_error", FInt (flag01 (negb (is_empty read_error))))].

(** The body of [for item in selection:]. *)
Definition raw_read_item (ts : Z) (item : TagItem)
    (cache : gmap string CachedReading)
  : Py.t World (list Point * gmap string CachedReading) :=
  let nodeid := item_nodeid item in
  let label := default nodeid (item_label item) in
  if is_empty nodeid then Py.ret ([], cache)
  else
    r <- read_numeric_with_cache nodeid cache MAX_CACHE_AGE_SECONDS ;;
    let '((numeric_value, from_cache, cache_age, read_error), cache) := r in
    match numeric_value with
    | None => Py.ret ([], cache)
    | Some v => Py.ret ([raw_point nodeid label ts v from_cache cache_age read_error], cache)
    end.

Fixpoint raw_read_items (ts : Z) (selection : list TagItem)
    (cache : gmap string CachedReading)
  : Py.t World (list Point * gmap string CachedReading) :=
  match selection with
  | [] => Py.ret ([], cache)
  | item :: rest =>
      r <- raw_read_item ts item cache ;;
      let '(points, cache) := r in
      r' <- raw_read_items ts rest cache ;;
      let '(more, cache) := r' in
      Py.ret (points ++ more, cache)
  end.

(** The state a cycle of the raw loop carries over: the pending list and the
    module-level [raw_value_cache]. *)
Record RawState : Type := mkRawState {
  raw_pending_points : list Point;
  raw_value_cache : gmap string CachedReading
}.

(** One turn of [while True:] in [raw_logging_loop], past the run-flag
    check; the second result is [new_points]. *)
Definition raw_cycle (st : RawState) : Py.t World (RawState * list Point) :=
  selection <- Py.lift load_selection ;;
  ts <- now_seconds ;;
  r <- raw_read_items ts selection (raw_value_cache st) ;;
  let '(new_points, cache) := r in
  pending_points <- enqueue_flush_trim (raw_pending_points st) new_points "" ;;
  _ <- Py.lift (fun w => (tt, time_sleep 1000 w)) ;;
  Py.ret (mkRawState pending_points cache, new_points).

(** *** The loop/PID loop *)

(** The dict appended for one tick of one loop. *)
Definition loop_point (loop_id machine_id : string) (ts now_sec : Z)
    (pv_value sp_value co_value : float) (pv_cached sp_cached co_cached : bool)
    (pv_age sp_age co_age : option Z) : Point :=
  mkPoint RAW_LOOP_MEASUREMENT
    [("loop_id", loop_id); ("machine_id", machine_id)]
    ts
    [("PV", FFloat pv_value);
     ("SP", FFloat sp_value);
     ("CO", FFloat co_value);
     ("PV_from_cache", FInt (flag01 pv_cached));
     ("SP_from_cache", FInt (flag01 sp_cached));
     ("CO_from_cache", FInt (flag01 co_cached));
     ("PV_cache_age_s", FInt (int_or_0 pv_age));
     ("SP_cache_age_s", FInt (int_or_0 sp_age));
     ("CO_cache_age_s", FInt (int_or_0 co_age));
     ("tick_backfill", FInt (flag01 (ts <? now_sec)))].

(** [tick_timestamps] of a cycle that proceeds:
    [backfill_from = max(next_tick, now_sec - LOOP_MAX_BACKFILL_SECONDS + 1)],
    [tick_timestamps = list(range(backfill_from, now_sec + 1))]. *)
Definition tick_timestamps (next_tick now_sec : Z) : list Z :=
  let backfill_from := Z.max next_tick (now_sec - LOOP_MAX_BACKFILL_SECONDS + 1) in
  py_range backfill_from (now_sec + 1).

(** The body of [for loop in loops:]: the points it appends to [new_points]
    and the cache as it leaves it. *)
Definition loop_read_entry (ticks : list Z) (now_sec : Z) (loop : LoopEntry)
    (cache : gmap string CachedReading)
  : Py.t World (list Point * gmap string CachedReading) :=
  let loop_id := strip (loop_id loop) in
  let machine_id := str_or (strip (machine_id loop)) "Kepware" in
  let pv_nodeid := strip (pv_nodeid loop) in
  let sp_nodeid := strip (sp_nodeid loop) in
  let co_nodeid := strip (co_nodeid loop) in
  if is_empty loop_id || is_empty pv_nodeid || is_empty sp_nodeid || is_empty co_nodeid
  then Py.ret ([], cache)
  else
    r <- read_numeric_with_cache pv_nodeid cache LOOP_CACHE_MAX_AGE_SECONDS ;;
    let '((pv_value, pv_cached, pv_age, _), cache) := r in
    r <- read_numeric_with_cache sp_nodeid cache LOOP_CACHE_MAX_AGE_SECONDS ;;
    let '((sp_value, sp_cached, sp_age, _), cache) := r in
    r <- read_numeric_with_cache co_nodeid cache LOOP_CACHE_MAX_AGE_SECONDS ;;
    let '((co_value, co_cached, co_age, _), cache) := r in
    match pv_value, sp_value, co_value with
    | Some pv, Some sp, Some co =>
        Py.ret (map (fun ts => loop_point loop_id machine_id ts now_sec pv sp co
                                 pv_cached sp_cached co_cached pv_age sp_age co_age)
                    ticks,
                cache)
    | _, _, _ => Py.ret ([], cache)
    end.


Fixpoint loop_read_entries (ticks : list Z) (now_sec : Z) (loops : list LoopEntry)
    (cache : gmap string CachedReading)
  : Py.t World (list Point * gmap string CachedReading) :=
  match loops with
  | [] => Py.ret ([], cache)
  | loop :: rest =>
      r <- loop_read_entry ticks now_sec loop cache ;;
      let '(points, cache) := r in
      r' <- loop_read_entries ticks now_sec rest cache ;;
      let '(more, cache) := r' in
      Py.ret (points ++ more, cache)
  end.

(** The state a cycle of the loop/PID loop carries over: the pending list,
    [next_tick] and the module-level [loop_value_cache]. *)
Record LoopState : Type := mkLoopState {
  loop_pending_points : list Point;
  next_tick : Z;
  loop_value_cache : gmap string CachedReading
}.

(** One turn of [while True:] in [loop_logging_loop], past the run-flag
    check; the second result is [new_points] (empty in a turn that only
    sleeps because [now_sec < next_tick]). *)
Definition loop_cycle (st : LoopState) : Py.t World (LoopState * list Point) :=
  now_sec <- now_seconds ;;
  if now_sec <? next_tick st
  then
    _ <- Py.lift (fun w => (tt, time_sleep 50 w)) ;;
    Py.ret (st, [])
  else
    let ticks := tick_timestamps (next_tick st) now_sec in
    let next_tick := now_sec + 1 in
    loops <- Py.lift load_loop_assignments ;;
    r <- loop_read_entries ticks now_sec loops (loop_value_cache st) ;;
    let '(new_points, cache) := r in
    pending_points <- enqueue_flush_trim (loop_pending_points st) new_points
                        RAW_LOOP_RETENTION_POLICY ;;
    _ <- Py.lift (fun w => (tt, time_sleep 20 w)) ;;
    Py.ret (mkLoopState pending_points next_tick cache, new_points).

(** [n] turns of the loop/PID loop from [st]: the state reached and the
    [new_points] of each turn, first turn first. *)
Fixpoint loop_cycles (n : nat) (st : LoopState)
  : Py.t World (LoopState * list (list Point)) :=
  match n with
  | O => Py.ret (st, [])
  | S n' =>
      r <- loop_cycle st ;;
      let '(st', new_points) := r in
      r' <- loop_cycles n' st' ;;
      let '(st'', later) := r' in
      Py.ret (st'', new_points :: later)
  end.

End Pipeline.

(** ** The freshness classification of [api_influx_tags_catalog] *)

Module Catalog.

Inductive State : Type := unknown | live | recent | cached | stale.

#[global] Instance State_eq_dec : EqDecision State.
Proof. solve_decision. Defined.

(** The state string of a [State]. *)
Definition state_name (s : State) : string :=
  match s with
  | unknown => "unknown"
  | live => "live"
  | recent => "recent"
  | cached => "cached"
  | stale => "stale"
  end.

(** The age classification, written out twice in the source (for the
    Historian backend items and for the rows of the direct Influx query):
    [state = "unknown"; if age_seconds is not None: ...]. *)
Definition classify (age_seconds : option Z) : State :=
  match age_seconds with
  | None => unknown
  | Some age =>
      if age <=? 5 then live
      else if age <=? 30 then recent
      else stale
  end.

(** The state of an item built from the Historian backend's status. *)
Definition backend_item_state (age_seconds : option Z) : State :=
  classify age_seconds.

(** The state of an item built from a row of the direct Influx query:
    the age classification, then
    [if int(row_map.get("from_cache") or 0) == 1 and state != "stale":
         state = "cached"]. *)
Definition influx_item_state (age_seconds : option Z) (from_cache : option Z) : State :=
  let state := classify age_seconds in
  if (int_or_0 from_cache =? 1) && negb (bool_decide (state = stale))
  then cached
  else state.

End Catalog.

(** ** The run flags of the two loops *)

Module RunState.

(** The two loop kinds, each with its own lock, thread handle and flag. *)
Inductive Kind : Type := Raw | Loop.

(** The globals of one loop kind ([raw_logger_running], [raw_logger_thread]
    or [loop_logger_running], [loop_logger_thread]) and the background
    threads of that kind that have been started and have not left their
    [while True:] loop.  Threads are numbered in the order they are
    started. *)
Record t : Type := mk {
  running : bool;
  thread : option nat;
  started : nat;
  alive : list nat
}.

(** The module as loaded: no thread, flags down. *)
Definition initial : t := mk false None 0 [].

Definition already_running (k : Kind) : string :=
  match k with
  | Raw => "Raw tag logging already running."
  | Loop => "Loop logging already running."
  end.

Definition started_message (k : Kind) : string :=
  match k with
  | Raw => "Raw tag logging started."
  | Loop => "Loop logging started."
  end.

Definition stopped_message (k : Kind) : string :=
  match k with
  | Raw => "Raw tag logging stopped."
  | Loop => "Loop logging stopped."
  end.

(** [api_raw_logging_start] / [api_loop_logging_start], under the lock. *)
Definition start (k : Kind) (st : t) : t * string :=
  if running st then (st, already_running k)
  else
    let tid := started st in
    (mk true (Some tid) (S tid) (alive st ++ [tid]), started_message k).

(** [api_raw_logging_stop] / [api_loop_logging_stop]: the flag is cleared,
    nothing else. *)
Definition stop (k : Kind) (st : t) : t * string :=
  (mk false (thread st) (started st) (alive st), stopped_message k).

(** [api_raw_logging_status] / [api_loop_logging_status]. *)
Definition status (st : t) : bool := running st.

(** Thread [tid] reaches the top of its [while True:] loop:
    [with lock: if not running: break]. *)
Definition poll (tid : nat) (st : t) : t :=
  if running st then st
  else mk (running st) (thread st) (started st)
          (filter (fun i => i <> tid) (alive st)).

Definition api_raw_logging_start : t -> t * string := start Raw.
Definition api_raw_logging_stop : t -> t * string := stop Raw.
Definition api_loop_logging_start : t -> t * string := start Loop.
Definition api_loop_logging_stop : t -> t * string := stop Loop.

(** What can happen to the globals of one loop kind: a request to start, a
    request to stop, or one of its threads checking the flag. *)
Inductive Event : Type := Start | Stop | Poll (tid : nat).

Definition step (k : Kind) (st : t) (e : Event) : t :=
  match e with
  | Start => fst (start k st)
  | Stop => fst (stop k st)
  | Poll tid => poll tid st
  end.

Definition run (k : Kind) (events : list Event) (st : t) : t :=
  fold_left (step k) events st.

(** The number of background threads of the kind that are active. *)
Definition active (st : t) : nat := length (alive st).

End RunState.

(** ** A scripted world, to run the pipeline on concrete inputs *)

Module Script.

(** The clock (microseconds), the values of the OPC UA nodes that answer,
    how many more batches InfluxDB accepts before it starts to refuse, the
    batches it accepted (latest first), and the two JSON state files. *)
Record World : Type := mk {
  clock : Z;
  nodes : list (string * PyVal);
  accepts : nat;
  stored : list (list Point);
  selection : list TagItem;
  loops : list LoopEntry
}.

Definition set_clock (now : Z) (w : World) : World :=
  mk now (nodes w) (accepts w) (stored w) (selection w) (loops w).

Fixpoint lookup_node (nodeid : string) (l : list (string * PyVal)) : Outcome PyVal :=
  match l with
  | [] => Raised "BadNodeIdUnknown"
  | (k, v) :: l' => if String.eqb k nodeid then Returned v else lookup_node nodeid l'
  end.

Definition write (batch : list Point) (w : World) : Outcome unit * World :=
  match accepts w with
  | O => (Raised "connection refused", w)
  | S n => (Returned tt,
            mk (clock w) (nodes w) n (batch :: stored w) (selection w) (loops w))
  end.

#[global] Instance collaborators : Collaborators World := {
  wall_clock w := (clock w, w);
  time_sleep ms w := set_clock (clock w + ms * 1000) w;
  opc_read_value nodeid w := (lookup_node nodeid (nodes w), w);
  influx_write_points batch _ w := write batch w;
  load_selection w := (selection w, w);
  load_loop_assignments w := (loops w, w)
}.

(** *** Sample inputs *)

(** At ten seconds past the epoch no node answers and InfluxDB refuses
    every batch. *)
Definition silent : World := mk 10000000 [] 0 [] [] [].

(** A cache whose entry for node [B] was read at four seconds. *)
Definition cache_b : gmap string CachedReading :=
  {[ "B" := mkCached 7 4000000 ]}.

(** A loop whose three nodes answer with a float, an int and a bool. *)
Definition triple : LoopEntry :=
  mkLoopEntry "L1" "M1" "ns=2;s=PV" "ns=2;s=SP" "ns=2;s=CO".

(** The same loop with a set point nobody serves. *)
Definition broken_triple : LoopEntry :=
  mkLoopEntry "L2" "M1" "ns=2;s=PV" "ns=2;s=missing" "ns=2;s=CO".

(** A plant at time [now] with the loop configuration [loops]; InfluxDB
    accepts the next [n] batches. *)
Definition plant (now : Z) (loops : list LoopEntry) (n : nat) : World :=
  mk now
     [("ns=2;s=PV", PFloat 1.5); ("ns=2;s=SP", PInt 2); ("ns=2;s=CO", PBool true)]
     n [] [] loops.

(** The loop/PID loop with nothing pending, an empty cache, and [next_tick]
    at [T]. *)
Definition waiting_since (T : Z) : LoopState := mkLoopState [] T ∅.


(** The timestamps logged for loop id [lid] over some turns. *)
Definition observe_ticks (lid : string)
    (r : Outcome (LoopState * list (list Point)) * World) : option (list Z) :=
  match fst r with
  | Returned (_, emitted) => Some (ticks_of lid (concat emitted))
  | Raised _ => None
  end.

(** Three pending points of the raw loop. *)
Definition three_points : list Point :=
  map (fun ts => raw_point "ns=2;s=PV" "pv" ts 1.5 false (Some 0) "") [1; 2; 3].

(** [n] pending points of the raw loop, stamped [0 .. n - 1]. *)
Definition backlog (n : Z) : list Point :=
  map (fun ts => raw_point "ns=2;s=PV" "pv" ts 1.5 false (Some 0) "") (seqZ 0 n).

(** What a flush shows: the count, the error string and the timestamps
    left in the queue. *)
Definition observe_flush (r : Outcome (Z * string * list Point) * World)
  : option (Z * string * list Z) :=
  match fst r with
  | Returned (written_total, last_error, q) => Some (written_total, last_error, map time q)
  | Raised _ => None
  end.

End Script.

(** * More of the two applications *)

(** ** Escaping for InfluxQL *)

Definition backslash : ascii := "\"%char.
Definition single_quote : ascii := "'"%char.
Definition double_quote : ascii := ascii_of_nat 34.

(** [s.replace(old, new)] for a pattern [old] of one character. *)
Fixpoint replace_char (old : ascii) (new : string) (s : string) : string :=
  match s with
  | EmptyString => EmptyString
  | String c s' =>
      if Ascii.eqb c old
      then new +:+ replace_char old new s'
      else String c (replace_char old new s')
  end.

(** [influx_escape] of [historian_ui.py]:
    [value.replace("\\", "\\\\").replace("'", "\\'")]. *)
Definition influx_escape (value : string) : string :=
  replace_char single_quote (String backslash (String single_quote EmptyString))
    (replace_char backslash (String backslash (String backslash EmptyString)) value).

(** [influx_string] of [grafana_view_wizard.py], the same two replacements. *)
Definition influx_string (value : string) : string :=
  replace_char single_quote (String backslash (String single_quote EmptyString))
    (replace_char backslash (String backslash (String backslash EmptyString)) value).

(** [influx_identifier] of [grafana_view_wizard.py]: the double quote in the
    place of the single quote. *)
Definition influx_identifier (value : string) : string :=
  replace_char double_quote (String backslash (String double_quote EmptyString))
    (replace_char backslash (String backslash (String backslash EmptyString)) value).

(** A text in which the backslash and the quote [q] stand only in the pairs
    backslash-backslash and backslash-[q]. *)
Inductive escaped (q : ascii) : string -> Prop :=
| escaped_end : escaped q EmptyString
| escaped_plain c s :
    c <> backslash -> c <> q -> escaped q s -> escaped q (String c s)
| escaped_pair c s :
    c = backslash \/ c = q -> escaped q s ->
    escaped q (String backslash (String c s)).

(** ** Saving the selection and the loops *)


(** A saved tag, [{"label": label, "nodeid": nodeid}]. *)
Record SavedTag : Type := mkSavedTag {
  saved_label : string;
  saved_nodeid : string
}.



Definition tag_as_item (t : SavedTag) : TagItem :=
  mkTagItem (saved_nodeid t) (Some (saved_label t)).

(** An item of the posted [loops], each field through [str(loop.get(key, ""))];
    the saved entries have the same eight keys. *)
Record LoopPayload : Type := mkLoopPayload {
  lp_loop_id : string;
  lp_machine_id : string;
  lp_pv_nodeid : string;
  lp_sp_nodeid : string;
  lp_co_nodeid : string;
  lp_pv_label : string;
  lp_sp_label : string;
  lp_co_label : string
}.

(** The loop of [api_save_loops] that builds [clean]. *)
Fixpoint clean_loops (loops : list LoopPayload) : list LoopPayload :=
  match loops with
  | [] => []
  | loop :: rest =>
      let loop_id := strip (lp_loop_id loop) in
      let machine_id := str_or (strip (lp_machine_id loop)) "Kepware" in
      let pv_nodeid := strip (lp_pv_nodeid loop) in
      let sp_nodeid := strip (lp_sp_nodeid loop) in
      let co_nodeid := strip (lp_co_nodeid loop) in
      let pv_label := strip (lp_pv_label loop) in
      let sp_label := strip (lp_sp_label loop) in
      let co_label := strip (lp_co_label loop) in
      if is_empty loop_id then clean_loops rest
      else mkLoopPayload loop_id machine_id pv_nodeid sp_nodeid co_nodeid
             pv_label sp_label co_label :: clean_loops rest
  end.

(** [api_save_loops]: what is saved under ["loops"] and the answer's
    ["saved"]. *)
Definition api_save_loops (loops : list LoopPayload) : list LoopPayload * Z :=
  let clean := clean_loops loops in (clean, len clean).

(** An entry as the loop/PID loop reads it from the file. *)
Definition loop_as_entry (loop : LoopPayload) : LoopEntry :=
  mkLoopEntry (lp_loop_id loop) (lp_machine_id loop) (lp_pv_nodeid loop)
    (lp_sp_nodeid loop) (lp_co_nodeid loop).

(** A tag fit to be saved: the node id is not empty, the label is not empty,
    and neither has white space around it. *)
Definition tidy_tag (t : SavedTag) : Prop :=
  saved_nodeid t <> EmptyString
  /\ saved_label t <> EmptyString
  /\ strip (saved_nodeid t) = saved_nodeid t
  /\ strip (saved_label t) = saved_label t.


(** ** The debug events of [grafana_view_wizard.py] *)

Definition DEBUG_EVENTS_MAX : Z := 300.

(** An event of the debug log; the details are the keys and values of the
    dict given, none when the argument is [None] or empty. *)
Record DebugEvent : Type := mkDebugEvent {
  event_ts : string;
  event_level : string;
  event_message : string;
  event_details : list (string * PyVal)
}.

(** The method of [logger] an event goes to. *)
Inductive LogMethod : Type := log_error | log_warning | log_info.

(** [add_debug_event(level, message, details)], with [ts] what [now_iso_utc()]
    gave: the event log as it is left, and the logger method called.  The text
    of the logged line is left out. *)
Definition add_debug_event (ts level message : string)
    (details : option (list (string * PyVal))) (debug_events : list DebugEvent)
  : list DebugEvent * LogMethod :=
  let event := mkDebugEvent ts level message (default [] details) in
  let debug_events := debug_events ++ [event] in
  let debug_events :=
    if DEBUG_EVENTS_MAX <? len debug_events
    then slice_from (len debug_events - DEBUG_EVENTS_MAX) debug_events
    else debug_events in
  (debug_events,
   if String.eqb level "error" then log_error
   else if String.eqb level "warn" then log_warning
   else log_info).

(** [l[start:]] for any integer [start]: a negative start counts from the
    end. *)
Definition py_slice_from {A} (start : Z) (l : list A) : list A :=
  if start <? 0
  then drop (Z.to_nat (Z.max 0 (len l + start))) l
  else drop (Z.to_nat start) l.

(** [api_debug_events], with [parsed] what [int(limit_raw)] gave ([None] when
    it raised): the events answered. *)
Definition api_debug_events (parsed : option Z) (debug_events : list DebugEvent)
  : list DebugEvent :=
  let limit :=
    match parsed with
    | Some n => Z.max 1 (Z.min 500 n)
    | None => 120
    end in
  py_slice_from (- limit) debug_events.

(** ** The counts of the tag catalog *)

(** The loop at the end of both paths of [api_influx_tags_catalog]:
    [counts[state] = counts.get(state, 0) + 1] and
    [max_age_seconds = max(max_age_seconds, age)] for the ages that are
    integers, over the items' states and ages. *)
Fixpoint catalog_counts (items : list (Catalog.State * option Z))
    (counts : gmap string Z) (max_age_seconds : Z) : gmap string Z * Z :=
  match items with
  | [] => (counts, max_age_seconds)
  | (state, age) :: rest =>
      let name := Catalog.state_name state in
      let counts := <[name := default 0 (counts !! name) + 1]> counts in
      let max_age_seconds :=
        match age with
        | Some a => Z.max max_age_seconds a
        | None => max_age_seconds
        end in
      catalog_counts rest counts max_age_seconds
  end.

(** [counts = {"live": 0, "recent": 0, "cached": 0, "stale": 0, "unknown": 0}]. *)
Definition zero_counts : gmap string Z :=
  <["live" := 0]> (<["recent" := 0]> (<["cached" := 0]>
    (<["stale" := 0]> (<["unknown" := 0]> ∅)))).

(** The ["total"], ["counts"] and ["max_age_seconds"] of the catalog's
    [meta]. *)
Definition catalog_meta (items : list (Catalog.State * option Z))
  : Z * gmap string Z * Z :=
  let '(counts, max_age_seconds) := catalog_counts items zero_counts 0 in
  (len items, counts, max_age_seconds).

(** The items of the two paths, by age (and cache flag). *)
Definition backend_items (ages : list (option Z)) : list (Catalog.State * option Z) :=
  map (fun age => (Catalog.backend_item_state age, age)) ages.
Definition influx_items (rows : list (option Z * option Z))
  : list (Catalog.State * option Z) :=
  map (fun row => (Catalog.influx_item_state (fst row) (snd row), fst row)) rows.

(** How many items are in state [s]. *)
Definition in_state (s : Catalog.State) (items : list (Catalog.State * option Z)) : Z :=
  len (filter (fun item => fst item = s) items).

(** ** Two more worlds: an InfluxDB that always accepts, one that never does *)

Module Accepting.

(** The batches stored, latest first. *)
Definition World : Type := list (list Point).

#[global] Instance collaborators : Collaborators World := {
  wall_clock w := (0, w);
  time_sleep _ w := w;
  opc_read_value _ w := (Raised "BadNodeIdUnknown", w);
  influx_write_points batch _ w := (Returned tt, batch :: w);
  load_selection w := ([], w);
  load_loop_assignments w := ([], w)
}.

End Accepting.

Module Refusing.

Definition World : Type := unit.

#[global] Instance collaborators : Collaborators World := {
  wall_clock w := (0, w);
  time_sleep _ w := w;
  opc_read_value _ w := (Raised "BadNodeIdUnknown", w);
  influx_write_points _ _ w := (Raised "connection refused", w);
  load_selection w := ([], w);
  load_loop_assignments w := ([], w)
}.

End Refusing.


(** ** Selections in [grafana_view_wizard.py] *)

(** The loop of [api_opc_read_many] that builds [clean_nodeids], the node ids
    each through [str(nodeid)]:
    [value = str(nodeid).strip()
     if value and value not in clean_nodeids: clean_nodeids.append(value)]. *)
Fixpoint clean_nodeids_from (clean_nodeids nodeids : list string) : list string :=
  match nodeids with
  | [] => clean_nodeids
  | nodeid :: rest =>
      let value := strip nodeid in
      if negb (is_empty value) && negb (bool_decide (value ∈ clean_nodeids))
      then clean_nodeids_from (clean_nodeids ++ [value]) rest
      else clean_nodeids_from clean_nodeids rest
  end.

Definition clean_nodeids (nodeids : list string) : list string :=
  clean_nodeids_from [] nodeids.

(** An entry of a selection's ["tags"]: a dict, seen through
    [str(item.get("nodeid", ""))] and [str(item.get("label", ""))], or
    something that is not a dict. *)
Inductive SelectionEntry : Type :=
| EntryDict (nodeid label : string)
| EntryOther.

(** [any(str(item.get("nodeid", "")).strip() == nodeid
         for item in tags if isinstance(item, dict))]. *)
Definition selection_has (nodeid : string) (tags : list SelectionEntry) : bool :=
  existsb (fun item =>
             match item with
             | EntryDict n _ => String.eqb (strip n) nodeid
             | EntryOther => false
             end) tags.

(** [api_opc_selection_add] on the local selection (the branch taken when the
    Historian backend does not answer; the branch through the backend does the
    same to the backend's list): the error, or the tags saved and the
    ["count"] answered.  [tags] is [None] when ["tags"] is not a list. *)
Definition api_opc_selection_add (payload_nodeid payload_label : string)
    (tags : option (list SelectionEntry)) : string + list SelectionEntry * Z :=
  let nodeid := strip payload_nodeid in
  let label := str_or (strip payload_label) nodeid in
  if is_empty nodeid then inl "nodeid is required"
  else
    let tags := default [] tags in
    let tags :=
      if selection_has nodeid tags then tags
      else tags ++ [EntryDict nodeid label] in
    inr (tags, len tags).

(** An item of the [raw_items] given to [normalize_process_tags]: a string, a
    dict (seen through [str(item.get(key, ""))]), or something else. *)
Inductive ProcessTagItem : Type :=
| ItemStr (s : string)
| ItemDict (nodeid label : string)
| ItemOther.

(** [normalize_process_tags(raw_items)]; [None] stands for a [raw_items] that
    is not a list. *)
Fixpoint normalize_items (items : list ProcessTagItem) : list SavedTag :=
  match items with
  | [] => []
  | ItemStr s :: rest =>
      let nodeid := strip s in
      if is_empty nodeid then normalize_items rest
      else mkSavedTag nodeid nodeid :: normalize_items rest
  | ItemDict n l :: rest =>
      let nodeid := strip n in
      if is_empty nodeid then normalize_items rest
      else mkSavedTag (str_or (strip l) nodeid) nodeid :: normalize_items rest
  | ItemOther :: rest => normalize_items rest
  end.

Definition normalize_process_tags (raw_items : option (list ProcessTagItem))
  : list SavedTag :=
  match raw_items with
  | None => []
  | Some items => normalize_items items
  end.

(** A normalized tag given again, as the dict it is. *)
Definition tag_as_process_item (t : SavedTag) : ProcessTagItem :=
  ItemDict (saved_nodeid t) (saved_label t).

(** ** Template ids in [grafana_view_wizard.py] *)

Definition dash : ascii := "-"%char.

(** The characters the pattern [[^a-zA-Z0-9\-]] does not match. *)
Definition is_template_char (c : ascii) : bool :=
  let n := nat_of_ascii c in
  ((48 <=? n)%nat && (n <=? 57)%nat) || ((65 <=? n)%nat && (n <=? 90)%nat)
  || ((97 <=? n)%nat && (n <=? 122)%nat) || Ascii.eqb c dash.

(** [re.sub(r"[..]+", "-", s)] for a class of characters [bad]: every maximal
    run of characters of the class becomes one dash.  [in_run] tells that the
    character before was of the class. *)
Fixpoint squeeze (bad : ascii -> bool) (in_run : bool) (l : list ascii) : list ascii :=
  match l with
  | [] => []
  | c :: l' =>
      if bad c
      then if in_run then squeeze bad true l' else dash :: squeeze bad true l'
      else c :: squeeze bad false l'
  end.

(** [s.strip("-")], and for any set of characters [P]. *)
Fixpoint lstrip_by (P : ascii -> bool) (l : list ascii) : list ascii :=
  match l with
  | c :: l' => if P c then lstrip_by P l' else l
  | [] => []
  end.

Fixpoint rstrip_by (P : ascii -> bool) (l : list ascii) : list ascii :=
  match l with
  | c :: l' =>
      match rstrip_by P l' with
      | [] => if P c then [] else [c]
      | r => c :: r
      end
  | [] => []
  end.

(** [c.lower()] for an ASCII character. *)
Definition ascii_lower (c : ascii) : ascii :=
  let n := nat_of_ascii c in
  if ((65 <=? n)%nat && (n <=? 90)%nat) then ascii_of_nat (n + 32) else c.

(** [safe_template_id(value)].  White space outside ASCII that
    [value.strip()] removes and [strip] does not is turned into a dash by the
    first substitution and removed with the dashes at the ends, so the result
    is the same. *)
Definition safe_template_id (value : string) : string :=
  let normalized :=
    squeeze (fun c => negb (is_template_char c)) false
      (list_ascii_of_string (strip value)) in
  let normalized :=
    map ascii_lower
      (rstrip_by (Ascii.eqb dash) (lstrip_by (Ascii.eqb dash)
         (squeeze (Ascii.eqb dash) false normalized))) in
  match normalized with
  | [] => "template"
  | _ => string_of_list_ascii normalized
  end.

(** The characters of a template id: lower-case letters, digits, the dash. *)
Definition is_id_char (c : ascii) : bool :=
  let n := nat_of_ascii c in
  ((48 <=? n)%nat && (n <=? 57)%nat) || ((97 <=? n)%nat && (n <=? 122)%nat)
  || Ascii.eqb c dash.

(** No two dashes side by side. *)
Fixpoint single_dashes (l : list ascii) : Prop :=
  match l with
  | c :: (d :: _) as rest => ~ (c = dash /\ d = dash) /\ single_dashes rest
  | _ => True
  end.

(** A well-formed template id: not empty, of id characters only, no dash at
    either end, no two dashes side by side. *)
Definition well_formed_id (s : string) : Prop :=
  let l := list_ascii_of_string s in
  l <> []
  /\ Forall (fun c => is_id_char c = true) l
  /\ head l <> Some dash
  /\ last l <> Some dash
  /\ single_dashes l.

(** * Properties *)

Ltac py_unfold :=
  unfold Py.bind, Py.ret, Py.raise, Py.try_except, Py.lift, Py.call in *.

(** ** The freshness classification *)

Section CatalogFacts.

Import Catalog.

Lemma classify_live age : age <= 5 -> classify (Some age) = live.
Proof.
  intros Hage. unfold classify.
  destruct (Z.leb_spec age 5) as [_ | Hgt]; [reflexivity | lia].
Qed.

Lemma classify_recent age : 5 < age <= 30 -> classify (Some age) = recent.
Proof.
  intros [Hlo Hhi]. unfold classify.
  destruct (Z.leb_spec age 5) as [Hle | _]; [lia |].
  destruct (Z.leb_spec age 30) as [_ | Hgt]; [reflexivity | lia].
Qed.

Lemma classify_stale age : 30 < age -> classify (Some age) = stale.
Proof.
  intros Hage. unfold classify.
  destruct (Z.leb_spec age 5) as [Hle | _]; [lia |].
  destruct (Z.leb_spec age 30) as [Hle | _]; [lia | reflexivity].
Qed.

Lemma classify_never_cached age_seconds : classify age_seconds <> cached.
Proof.
  destruct age_seconds as [age |]; cbn; [| discriminate].
  destruct (age <=? 5); [discriminate |].
  destruct (age <=? 30); discriminate.
Qed.

(** C6.  The age classification is total with the thresholds 5 and 30:
    no age gives [unknown], an age of at most 5 gives [live], an age above 5
    and at most 30 gives [recent], an age above 30 gives [stale]; in
    particular 5 is live, 6 and 30 are recent, 31 is stale.  Both places of
    the source that classify an age compute this function (the rows of the
    direct Influx query before the cache flag is looked at). *)
Theorem classify_thresholds :
  classify None = unknown
  /\ (forall age, age <= 5 -> classify (Some age) = live)
  /\ (forall age, 5 < age <= 30 -> classify (Some age) = recent)
  /\ (forall age, 30 < age -> classify (Some age) = stale)
  /\ classify (Some 5) = live
  /\ classify (Some 6) = recent
  /\ classify (Some 30) = recent
  /\ classify (Some 31) = stale
  /\ (forall age_seconds, backend_item_state age_seconds = classify age_seconds)
  /\ (forall age_seconds, influx_item_state age_seconds None = classify age_seconds)
  /\ (forall age_seconds, influx_item_state age_seconds (Some 0) = classify age_seconds).
Proof.
  split; [reflexivity |].
  split; [exact classify_live |].
  split; [exact classify_recent |].
  split; [exact classify_stale |].
  repeat (split; [reflexivity |]).
  split; intros age_seconds; unfold influx_item_state; reflexivity.
Qed.

(** C5, as the code has it.  For a row of the direct Influx query whose
    [from_cache] is 1, every classification but [stale] ([recent], and also
    [live] and [unknown]) is overridden to [cached]; [stale] stays. *)
Theorem from_cache_overrides_all_but_stale (age_seconds : option Z) :
  influx_item_state age_seconds (Some 1) =
    match classify age_seconds with
    | stale => stale
    | _ => cached
    end.
Proof.
  unfold influx_item_state. cbn [int_or_0].
  change (1 =? 1) with true. cbn [andb].
  destruct (classify age_seconds); reflexivity.
Qed.

(** C5 as written fails: a row aged 31 seconds with [from_cache = 1] is
    classified [stale] and is not overridden to [cached]. *)
Lemma stale_is_not_overridden :
  classify (Some 31) = stale /\ influx_item_state (Some 31) (Some 1) = stale.
Proof. split; reflexivity. Qed.

End CatalogFacts.

(** ** The cached reader *)

Section ReaderFacts.

Context {World : Type} `{Collaborators World}.

Implicit Types (cache : gmap string CachedReading) (w : World).

Lemma read_live_returned nodeid cache max_age w now w1 value w2 :
  wall_clock w = (now, w1) ->
  live_read nodeid w1 = (Returned value, w2) ->
  read_numeric_with_cache nodeid cache max_age w =
    (Returned ((Some value, false, Some 0, ""), <[nodeid := mkCached value now]> cache), w2).
Proof.
  intros Hclock Hlive. unfold read_numeric_with_cache, utc_now. py_unfold.
  rewrite Hclock, Hlive. reflexivity.
Qed.

Lemma read_live_raised nodeid cache max_age w now w1 err w2 :
  wall_clock w = (now, w1) ->
  live_read nodeid w1 = (Raised err, w2) ->
  read_numeric_with_cache nodeid cache max_age w =
    (Returned (fallback_tuple cache nodeid now max_age err, cache), w2).
Proof.
  intros Hclock Hlive. unfold read_numeric_with_cache, utc_now, fallback_tuple.
  py_unfold. rewrite Hclock, Hlive.
  destruct (cache !! nodeid) as [cached |]; [| reflexivity].
  destruct (whole_seconds (now - cached_ts cached) <=? max_age); reflexivity.
Qed.

(** The live read fails exactly when the server raises or hands back a
    value [safe_float] refuses. *)
Lemma live_read_raised_iff nodeid w err w' :
  live_read nodeid w = (Raised err, w') <->
  opc_read_value nodeid w = (Raised err, w')
  \/ exists raw, opc_read_value nodeid w = (Returned raw, w')
                 /\ safe_float raw = Raised err.
Proof.
  unfold live_read. py_unfold.
  destruct (opc_read_value nodeid w) as [[raw | msg] w1] eqn:Hread.
  - split.
    + intros Hsf. right. exists raw.
      destruct (safe_float raw) eqn:Hraw; inversion Hsf; subst. auto.
    + intros [Hbad | (raw' & Heq & Hsf)]; [discriminate |].
      inversion Heq; subst. rewrite Hsf. reflexivity.
  - split.
    + intros Heq. inversion Heq; subst. left. reflexivity.
    + intros [Heq | (raw & Heq & _)]; [| discriminate].
      inversion Heq; subst. reflexivity.
Qed.

Lemma safe_float_non_numeric value :
  match value with
  | PNone | PStr _ | POther _ => exists err, safe_float value = Raised err
  | _ => True
  end.
Proof. destruct value; cbn; eauto. Qed.

(** The reader hands back a 4-tuple from every world, cache and node id. *)
Lemma read_numeric_with_cache_returns nodeid cache max_age w :
  exists result cache' w',
    read_numeric_with_cache nodeid cache max_age w = (Returned (result, cache'), w').
Proof.
  destruct (wall_clock w) as [now w1] eqn:Hclock.
  destruct (live_read nodeid w1) as [[value | err] w2] eqn:Hlive.
  - eexists _, _, _. eapply read_live_returned; eassumption.
  - eexists _, _, _. eapply read_live_raised; eassumption.
Qed.

(** C2.  When the live read fails with message [err]: if the cache holds an
    entry for the node whose age in whole seconds is at most [max_age], the
    reader hands back the cached value, [from_cache = True], that age and
    [err]; if the cache holds no entry for the node, or one older than
    [max_age], it hands back [None] as the value, with [err].  The cache is
    left as it was. *)
Theorem read_falls_back_to_cache nodeid cache max_age w now w1 err w2
    (Hclock : wall_clock w = (now, w1))
    (Hlive : live_read nodeid w1 = (Raised err, w2)) :
  (forall cached,
      cache !! nodeid = Some cached ->
      whole_seconds (now - cached_ts cached) <= max_age ->
      read_numeric_with_cache nodeid cache max_age w =
        (Returned ((Some (cached_value cached), true,
                    Some (whole_seconds (now - cached_ts cached)), err), cache), w2))
  /\ ((cache !! nodeid = None
       \/ exists cached, cache !! nodeid = Some cached
                         /\ max_age < whole_seconds (now - cached_ts cached)) ->
      read_numeric_with_cache nodeid cache max_age w =
        (Returned ((None, false, None, err), cache), w2)).
Proof.
  rewrite (read_live_raised _ cache max_age _ _ _ _ _ Hclock Hlive).
  unfold fallback_tuple. split.
  - intros cached Hentry Hage. rewrite Hentry.
    destruct (Z.leb_spec (whole_seconds (now - cached_ts cached)) max_age);
      [reflexivity | lia].
  - intros [Hnone | (cached & Hentry & Hage)].
    + rewrite Hnone. reflexivity.
    + rewrite Hentry.
      destruct (Z.leb_spec (whole_seconds (now - cached_ts cached)) max_age);
        [lia | reflexivity].
Qed.

(** C8.  From every world, cache, node id and maximal age the reader returns
    a 4-tuple and raises nothing: after a live read that returned, the value
    with an empty error; after a live read that raised (the server did not
    answer, or the value was refused by [safe_float]), the message of the
    exception, with either a cached value marked [from_cache] or no value. *)
Theorem read_never_raises nodeid cache max_age w :
  exists (result : ReadTuple) cache' w',
    read_numeric_with_cache nodeid cache max_age w = (Returned (result, cache'), w')
    /\ match live_read nodeid (snd (wall_clock w)) with
       | (Returned value, _) => result = (Some value, false, Some 0, "")
       | (Raised err, _) =>
           exists value from_cache cache_age,
             result = (value, from_cache, cache_age, err)
             /\ cache' = cache
             /\ (value = None /\ from_cache = false /\ cache_age = None
                 \/ from_cache = true /\ exists cached age,
                      cache !! nodeid = Some cached
                      /\ value = Some (cached_value cached)
                      /\ cache_age = Some age /\ age <= max_age)
       end.
Proof.
  destruct (wall_clock w) as [now w1] eqn:Hclock. cbn [snd].
  destruct (live_read nodeid w1) as [[value | err] w2] eqn:Hlive.
  - eexists _, _, _. split; [eapply read_live_returned; eassumption | reflexivity].
  - eexists _, _, _. split; [eapply read_live_raised; eassumption |].
    unfold fallback_tuple.
    destruct (cache !! nodeid) as [cached |] eqn:Hentry.
    + destruct (Z.leb_spec (whole_seconds (now - cached_ts cached)) max_age).
      * eexists _, _, _. split; [reflexivity |]. split; [reflexivity |].
        right. split; [reflexivity |]. eexists _, _. eauto.
      * eexists _, _, _. split; [reflexivity |]. split; [reflexivity |]. left. auto.
    + eexists _, _, _. split; [reflexivity |]. split; [reflexivity |]. left. auto.
Qed.

End ReaderFacts.

(** ** The batch writer and the trim step *)

Section WriterFacts.

Context {World : Type} `{Collaborators World}.

Implicit Types (q pending : list Point) (w : World).

Lemma len_nonneg {A} (l : list A) : 0 <= len l.
Proof. unfold len. lia. Qed.

Lemma len_app {A} (l1 l2 : list A) : len (l1 ++ l2) = len l1 + len l2.
Proof. unfold len. rewrite length_app. lia. Qed.

Lemma len_nil_iff {A} (l : list A) : len l = 0 <-> l = [].
Proof.
  unfold len. destruct l as [| x l]; cbn [length]; split; intros Hl;
    first [reflexivity | discriminate | lia].
Qed.

Lemma slice_to_from {A} (n : Z) (l : list A) :
  slice_to n l ++ slice_from n l = l.
Proof. unfold slice_to, slice_from. apply take_drop. Qed.

Lemma len_slice_to {A} (n : Z) (l : list A) :
  0 <= n -> len (slice_to n l) = Z.min n (len l).
Proof. intros Hn. unfold len, slice_to. rewrite length_take. lia. Qed.

Lemma len_slice_from {A} (n : Z) (l : list A) :
  0 <= n -> len (slice_from n l) = Z.max 0 (len l - n).
Proof. intros Hn. unfold len, slice_from. rewrite length_drop. lia. Qed.

(** Deleting the batch just taken: [del pending_points[: len(batch)]]. *)
Lemma batch_then_rest q :
  slice_to WRITE_BATCH_SIZE q ++ slice_from (len (slice_to WRITE_BATCH_SIZE q)) q = q.
Proof.
  unfold slice_from, slice_to, len. rewrite Nat2Z.id, length_take.
  destruct (Nat.le_ge_cases (Z.to_nat WRITE_BATCH_SIZE) (length q)) as [Hle | Hge].
  - rewrite Nat.min_l by exact Hle. apply take_drop.
  - rewrite Nat.min_r by exact Hge. rewrite take_ge by exact Hge.
    rewrite drop_all. apply app_nil_r.
Qed.

Lemma batch_nonempty q : q <> [] -> 0 < len (slice_to WRITE_BATCH_SIZE q).
Proof.
  intros Hq. rewrite len_slice_to by (unfold WRITE_BATCH_SIZE; lia).
  pose proof (len_nonneg q) as Hlen.
  assert (len q <> 0) by (rewrite len_nil_iff; exact Hq).
  unfold WRITE_BATCH_SIZE. lia.
Qed.

(** What [flushed] took out is a prefix of the queue, [n] points long. *)
Lemma flushed_prefix rp w q n w' q' :
  flushed rp w q n w' q' -> exists written, q = written ++ q' /\ n = len written.
Proof.
  induction 1 as [w q | w q w1 n w' q' Hq Hwrite Hrest (written & Heq & Hn)].
  - exists []. split; reflexivity.
  - exists (slice_to WRITE_BATCH_SIZE q ++ written). split.
    + rewrite <- app_assoc, <- Heq. symmetry. apply batch_then_rest.
    + rewrite len_app, Hn. reflexivity.
Qed.

(** The loop, for every amount of fuel that covers the queue. *)
Lemma write_pending_loop_spec rp fuel : forall q written_total w,
  (length q <= fuel)%nat ->
  exists n err q' w1 w',
    write_pending_loop fuel rp q written_total w
      = (Returned (written_total + n, err, q'), w')
    /\ flushed rp w q n w1 q'
    /\ (q' = [] /\ err = "" /\ w' = w1
        \/ q' <> []
           /\ influx_write_points (slice_to WRITE_BATCH_SIZE q') rp w1 = (Raised err, w')).
Proof.
  induction fuel as [| fuel IH]; intros q written_total w Hfuel.
  - destruct q as [| p q]; [| cbn in Hfuel; lia].
    exists 0, "", [], w, w. cbn. py_unfold. rewrite Z.add_0_r.
    split; [reflexivity |]. split; [apply flushed_none | left; auto].
  - destruct q as [| p q].
    + exists 0, "", [], w, w. cbn. py_unfold. rewrite Z.add_0_r.
      split; [reflexivity |]. split; [apply flushed_none | left; auto].
    + set (queue := p :: q) in *.
      assert (Hne : queue <> []) by discriminate.
      change (write_pending_loop (S fuel) rp queue written_total w) with
        ((failed <- Py.try_except
                      (_ <- Py.call (influx_write_points
                                       (slice_to WRITE_BATCH_SIZE queue) rp) ;;
                       Py.ret None)
                      (fun exc => Py.ret (Some exc)) ;;
          match failed with
          | Some last_error => Py.ret (written_total, last_error, queue)
          | None =>
              write_pending_loop fuel rp
                (slice_from (len (slice_to WRITE_BATCH_SIZE queue)) queue)
                (written_total + len (slice_to WRITE_BATCH_SIZE queue))
          end) w).
      py_unfold.
      destruct (influx_write_points (slice_to WRITE_BATCH_SIZE queue) rp w)
        as [[[] | exc] w1] eqn:Hwrite.
      * pose proof (batch_nonempty queue Hne) as Hbatch.
        pose proof (batch_then_rest queue) as Hsplit.
        assert (Hless : (length (slice_from (len (slice_to WRITE_BATCH_SIZE queue)) queue)
                         <= fuel)%nat).
        { apply (f_equal (@length Point)) in Hsplit. rewrite length_app in Hsplit.
          unfold len in Hbatch. lia. }
        destruct (IH _ (written_total + len (slice_to WRITE_BATCH_SIZE queue)) w1 Hless)
          as (n & err & q' & w2 & w' & Hrun & Hflushed & Hend).
        exists (len (slice_to WRITE_BATCH_SIZE queue) + n), err, q', w2, w'.
        split; [rewrite Hrun, Z.add_assoc; reflexivity |].
        split; [| exact Hend].
        eapply flushed_batch; eassumption.
      * exists 0, exc, queue, w, w1. rewrite Z.add_0_r.
        split; [reflexivity |]. split; [apply flushed_none |].
        right. split; [exact Hne | exact Hwrite].
Qed.

Lemma write_pending_points_spec q rp w :
  exists n err q' w1 w',
    write_pending_points q rp w = (Returned (n, err, q'), w')
    /\ flushed rp w q n w1 q'
    /\ (q' = [] /\ err = "" /\ w' = w1
        \/ q' <> []
           /\ influx_write_points (slice_to WRITE_BATCH_SIZE q') rp w1 = (Raised err, w')).
Proof.
  unfold write_pending_points.
  destruct (write_pending_loop_spec rp (length q) q 0 w (Nat.le_refl _))
    as (n & err & q' & w1 & w' & Hrun & Hrest).
  exists n, err, q', w1, w'. rewrite Hrun. split; [reflexivity | exact Hrest].
Qed.

(** A flush from a queue that an always-refusing InfluxDB faces takes
    nothing out. *)
Lemma flushed_refused rp w q n w' q' :
  (forall batch w0, exists err w0',
      influx_write_points batch rp w0 = (Raised err, w0')) ->
  flushed rp w q n w' q' -> q' = q /\ n = 0 /\ w' = w.
Proof.
  intros Hrefuse Hflushed.
  destruct Hflushed as [w q | w q w1 n w' q' Hq Hwrite Hrest]; [auto |].
  destruct (Hrefuse (slice_to WRITE_BATCH_SIZE q) w) as (err & w0' & Hraised).
  rewrite Hraised in Hwrite. discriminate.
Qed.

(** C3.  [write_pending_points] always returns.  It hands InfluxDB, call after
    call, the first [WRITE_BATCH_SIZE] points of the queue (a batch is never
    longer), and deletes each accepted batch from the front ([flushed]); it
    ends either with the queue empty and the error string empty, or at the
    first refused batch, whose message it returns, with that batch and all
    behind it still queued in order.  What was taken out is a prefix of the
    queue and [written_total] is its length.  When InfluxDB refuses every
    batch, the queue is left exactly as it was and nothing is counted as
    written. *)
Theorem write_pending_points_flush q rp w :
  exists written_total last_error q' w1 w',
    write_pending_points q rp w = (Returned (written_total, last_error, q'), w')
    /\ flushed rp w q written_total w1 q'
    /\ (q' = [] /\ last_error = "" /\ w' = w1
        \/ q' <> []
           /\ influx_write_points (slice_to WRITE_BATCH_SIZE q') rp w1
              = (Raised last_error, w'))
    /\ (exists written, q = written ++ q' /\ written_total = len written)
    /\ (forall l : list Point,
          len (slice_to WRITE_BATCH_SIZE l) = Z.min WRITE_BATCH_SIZE (len l))
    /\ ((forall batch w0, exists err w0',
            influx_write_points batch rp w0 = (Raised err, w0')) ->
        q' = q /\ written_total = 0).
Proof.
  destruct (write_pending_points_spec q rp w)
    as (n & err & q' & w1 & w' & Hrun & Hflushed & Hend).
  exists n, err, q', w1, w'.
  split; [exact Hrun |]. split; [exact Hflushed |]. split; [exact Hend |].
  split; [eapply flushed_prefix; exact Hflushed |].
  split.
  - intros l. apply len_slice_to. unfold WRITE_BATCH_SIZE. lia.
  - intros Hrefuse.
    destruct (flushed_refused _ _ _ _ _ _ Hrefuse Hflushed) as (Hq & Hn & _).
    auto.
Qed.

(** The tail of a cycle always returns. *)
Lemma enqueue_flush_trim_returns pending new_points rp w :
  exists q w' ,
    enqueue_flush_trim pending new_points rp w = (Returned q, w')
    /\ (q = [] \/ exists flushed_queue, q = trim_pending flushed_queue).
Proof.
  unfold enqueue_flush_trim.
  destruct (pending ++ new_points) as [| p rest] eqn:Hqueue.
  - exists [], w. split; [reflexivity | left; reflexivity].
  - destruct (write_pending_points_spec (p :: rest) rp w)
      as (n & err & q' & w1 & w' & Hrun & _).
    py_unfold. rewrite Hrun.
    exists (trim_pending q'), w'. split; [reflexivity | right; eauto].
Qed.

Lemma trim_pending_split pending :
  slice_to (Z.max 0 (len pending - MAX_PENDING_POINTS)) pending ++ trim_pending pending
  = pending.
Proof.
  unfold trim_pending.
  destruct (Z.ltb_spec MAX_PENDING_POINTS (len pending)) as [Hover | Hfits].
  - rewrite Z.max_r by lia. apply slice_to_from.
  - rewrite Z.max_l by lia. reflexivity.
Qed.

Lemma len_trim_pending pending :
  len (trim_pending pending) = Z.min (len pending) MAX_PENDING_POINTS.
Proof.
  unfold trim_pending.
  destruct (Z.ltb_spec MAX_PENDING_POINTS (len pending)) as [Hover | Hfits].
  - rewrite len_slice_from by lia. unfold MAX_PENDING_POINTS in *. lia.
  - lia.
Qed.

(** The tail of a cycle leaves a pending list within the cap. *)
Lemma enqueue_flush_trim_within_cap pending new_points rp w :
  exists q w',
    enqueue_flush_trim pending new_points rp w = (Returned q, w')
    /\ len q <= MAX_PENDING_POINTS.
Proof.
  destruct (enqueue_flush_trim_returns pending new_points rp w)
    as (q & w' & Hrun & [Hnil | (flushed_queue & Htrim)]).
  - exists q, w'. split; [exact Hrun |]. subst q. unfold MAX_PENDING_POINTS, len. cbn. lia.
  - exists q, w'. split; [exact Hrun |]. subst q. rewrite len_trim_pending. lia.
Qed.

(** C4.  The trim step drops points from the front only: the list before is
    the dropped points followed by the list after, the number dropped is
    [N - MAX_PENDING_POINTS] when [N] is above the cap and 0 otherwise, and
    the list after has [min N MAX_PENDING_POINTS] points, so never more than
    the cap; with [N] above the cap the point at place [i] after the trim is
    the point at place [i + (N - MAX_PENDING_POINTS)] before it; with [N] at
    most the cap the list is unchanged.  The tail of a cycle of either loop
    (extend, flush, trim) always returns a pending list within the cap. *)
Theorem trim_pending_drops_oldest :
  (forall pending,
      exists dropped,
        pending = dropped ++ trim_pending pending
        /\ len dropped = Z.max 0 (len pending - MAX_PENDING_POINTS)
        /\ len (trim_pending pending) = Z.min (len pending) MAX_PENDING_POINTS
        /\ len (trim_pending pending) <= MAX_PENDING_POINTS
        /\ (MAX_PENDING_POINTS < len pending ->
            forall i : nat,
              trim_pending pending !! i
              = pending !! (i + Z.to_nat (len pending - MAX_PENDING_POINTS))%nat)
        /\ (len pending <= MAX_PENDING_POINTS -> trim_pending pending = pending))
  /\ (forall pending new_points rp w,
        exists q w',
          enqueue_flush_trim pending new_points rp w = (Returned q, w')
          /\ len q <= MAX_PENDING_POINTS).
Proof.
  split.
  - intros pending.
    exists (slice_to (Z.max 0 (len pending - MAX_PENDING_POINTS)) pending).
    split; [symmetry; apply trim_pending_split |].
    split; [rewrite len_slice_to by lia; pose proof (len_nonneg pending);
            unfold MAX_PENDING_POINTS; lia |].
    split; [apply len_trim_pending |].
    split; [rewrite len_trim_pending; lia |].
    split.
    + intros Hover i. unfold trim_pending.
      destruct (Z.ltb_spec MAX_PENDING_POINTS (len pending)) as [_ | Hfits]; [| lia].
      unfold slice_from. rewrite lookup_drop. f_equal. lia.
    + intros Hfits. unfold trim_pending.
      destruct (Z.ltb_spec MAX_PENDING_POINTS (len pending)) as [Hover | _];
        [lia | reflexivity].
  - exact enqueue_flush_trim_within_cap.
Qed.

End WriterFacts.

(** ** The loop/PID loop *)

Section LoopFacts.

Context {World : Type} `{Collaborators World}.

Implicit Types (cache : gmap string CachedReading) (w : World) (loop : LoopEntry).

Lemma loop_read_entry_unconfigured ticks now_sec loop cache w :
  unconfigured loop = true ->
  loop_read_entry ticks now_sec loop cache w = (Returned ([], cache), w).
Proof.
  unfold unconfigured, loop_read_entry. intros Hguard. rewrite Hguard. reflexivity.
Qed.

(** The entry once its three reads are known. *)
Lemma loop_read_entry_reads ticks now_sec loop cache w
    (r1 r2 r3 : ReadTuple) c1 c2 c3 w1 w2 w3 :
  unconfigured loop = false ->
  read_numeric_with_cache (strip (pv_nodeid loop)) cache LOOP_CACHE_MAX_AGE_SECONDS w
    = (Returned (r1, c1), w1) ->
  read_numeric_with_cache (strip (sp_nodeid loop)) c1 LOOP_CACHE_MAX_AGE_SECONDS w1
    = (Returned (r2, c2), w2) ->
  read_numeric_with_cache (strip (co_nodeid loop)) c2 LOOP_CACHE_MAX_AGE_SECONDS w2
    = (Returned (r3, c3), w3) ->
  loop_read_entry ticks now_sec loop cache w =
    (Returned
       (match tuple_value r1, tuple_value r2, tuple_value r3 with
        | Some pv, Some sp, Some co =>
            map (fun ts =>
                   loop_point (strip (loop_id loop))
                     (str_or (strip (machine_id loop)) "Kepware") ts now_sec pv sp co
                     (snd (fst (fst r1))) (snd (fst (fst r2))) (snd (fst (fst r3)))
                     (snd (fst r1)) (snd (fst r2)) (snd (fst r3)))
                ticks
        | _, _, _ => []
        end, c3), w3).
Proof.
  unfold unconfigured, loop_read_entry. intros Hguard Hpv Hsp Hco.
  rewrite Hguard. py_unfold. rewrite Hpv.
  destruct r1 as [[[pv_value pv_cached] pv_age] pv_err]. rewrite Hsp.
  destruct r2 as [[[sp_value sp_cached] sp_age] sp_err]. rewrite Hco.
  destruct r3 as [[[co_value co_cached] co_age] co_err]. cbn.
  destruct pv_value, sp_value, co_value; reflexivity.
Qed.

(** C9.  An entry with an empty loop id or an empty node id (after [strip])
    is passed over before any read: it appends no point, and leaves the cache
    and the world as they were.  An entry whose three reads are made and of
    which at least one hands back no value appends no point either.  In both
    cases the body of the loop returns normally (nothing is raised): the
    omission is silent. *)
Theorem partial_triple_emits_nothing ticks now_sec loop cache w :
  (unconfigured loop = true ->
   loop_read_entry ticks now_sec loop cache w = (Returned ([], cache), w))
  /\ (forall (r1 r2 r3 : ReadTuple) c1 c2 c3 w1 w2 w3,
        unconfigured loop = false ->
        read_numeric_with_cache (strip (pv_nodeid loop)) cache
          LOOP_CACHE_MAX_AGE_SECONDS w = (Returned (r1, c1), w1) ->
        read_numeric_with_cache (strip (sp_nodeid loop)) c1
          LOOP_CACHE_MAX_AGE_SECONDS w1 = (Returned (r2, c2), w2) ->
        read_numeric_with_cache (strip (co_nodeid loop)) c2
          LOOP_CACHE_MAX_AGE_SECONDS w2 = (Returned (r3, c3), w3) ->
        tuple_value r1 = None \/ tuple_value r2 = None \/ tuple_value r3 = None ->
        loop_read_entry ticks now_sec loop cache w = (Returned ([], c3), w3)).
Proof.
  split; [apply loop_read_entry_unconfigured |].
  intros r1 r2 r3 c1 c2 c3 w1 w2 w3 Hguard Hpv Hsp Hco Hnone.
  rewrite (loop_read_entry_reads _ _ _ _ _ _ _ _ _ _ _ _ _ _ Hguard Hpv Hsp Hco).
  destruct (tuple_value r1), (tuple_value r2), (tuple_value r3);
    first [reflexivity | destruct Hnone as [Hn | [Hn | Hn]]; discriminate].
Qed.

(** *** The ticks of a cycle *)





(** *** The points of one entry *)




(** *** The points of one cycle *)









(** *** Ticks across cycles *)




(** *** The pending list after a turn *)

Lemma raw_read_items_returns ts : forall (selection : list TagItem) cache w,
  exists points cache' w',
    raw_read_items ts selection cache w = (Returned (points, cache'), w').
Proof.
  induction selection as [| item selection IH]; intros cache w.
  - exists [], cache, w. reflexivity.
  - assert (Hitem : exists points c1 w1,
               raw_read_item ts item cache w = (Returned (points, c1), w1)).
    { unfold raw_read_item. destruct (is_empty (item_nodeid item)).
      - exists [], cache, w. reflexivity.
      - destruct (read_numeric_with_cache_returns (item_nodeid item) cache
                    MAX_CACHE_AGE_SECONDS w) as (r & c1 & w1 & Hread).
        py_unfold. rewrite Hread.
        destruct r as [[[[value |] from_cache] cache_age] read_error];
          eexists _, _, _; reflexivity. }
    destruct Hitem as (points & c1 & w1 & Hitem).
    destruct (IH c1 w1) as (more & c2 & w2 & Hrest).
    exists (points ++ more), c2, w2.
    cbn [raw_read_items]. py_unfold. rewrite Hitem, Hrest. reflexivity.
Qed.

(** A turn of the raw loop always returns, its pending list within the cap. *)
Lemma raw_cycle_within_cap st w :
  exists st' new_points w',
    raw_cycle st w = (Returned (st', new_points), w')
    /\ len (raw_pending_points st') <= MAX_PENDING_POINTS.
Proof.
  unfold raw_cycle, now_seconds. py_unfold.
  destruct (load_selection w) as [selection w1].
  destruct (wall_clock w1) as [now w2].
  destruct (raw_read_items_returns (whole_seconds now) selection (raw_value_cache st) w2)
    as (new_points & cache & w3 & Hread).
  rewrite Hread.
  destruct (enqueue_flush_trim_within_cap (raw_pending_points st) new_points "" w3)
    as (pending & w4 & Hflush & Hcap).
  rewrite Hflush. eexists _, _, _. split; [reflexivity | exact Hcap].
Qed.

End LoopFacts.

(** A run of C2: node [B] does not answer at [t = 10 s], its cache entry is
    from [t = 4 s], and the maximal age is 30 s. *)
Lemma read_falls_back_to_cache_witness :
  read_numeric_with_cache "B" Script.cache_b 30 Script.silent =
    (Returned ((Some 7%float, true, Some 6, "BadNodeIdUnknown"), Script.cache_b),
     Script.silent).
Proof.
  refine (proj1 (read_falls_back_to_cache (H := Script.collaborators)
                   "B" Script.cache_b 30 Script.silent 10000000 Script.silent
                   "BadNodeIdUnknown" Script.silent _ _)
                (mkCached 7 4000000) _ _).
  - reflexivity.
  - reflexivity.
  - reflexivity.
  - vm_compute. discriminate.
Defined.




(** A partial triple at work: the set point of [L2] is not served and was
    never cached, so the turn logs the three ticks of [L1] only. *)
Example broken_triple_is_skipped :
  Script.observe_ticks "L2"
    (loop_cycles 1 (Script.waiting_since 100)
       (Script.plant 102000000 [Script.broken_triple; Script.triple] 1))
  = Some []
  /\ Script.observe_ticks "L1"
       (loop_cycles 1 (Script.waiting_since 100)
          (Script.plant 102000000 [Script.broken_triple; Script.triple] 1))
     = Some [100; 101; 102].
Proof. split; vm_compute; reflexivity. Qed.

(** The writer at work: an InfluxDB that accepts takes the three points in
    one batch; one that refuses leaves them queued and hands back its
    message. *)
Example write_three_points :
  fst (write_pending_points Script.three_points "" (Script.plant 0 [] 1))
  = Returned (3, "", [])
  /\ fst (write_pending_points Script.three_points "" (Script.plant 0 [] 0))
     = Returned (0, "connection refused", Script.three_points).
Proof. split; vm_compute; reflexivity. Qed.

(** Batches at work: of 5001 pending points the first 5000 go out in the one
    batch InfluxDB accepts; the second batch, the last point alone, is refused
    and stays queued. *)
Example write_two_batches :
  Script.observe_flush
    (write_pending_points (Script.backlog 5001) "" (Script.plant 0 [] 1))
  = Some (5000, "connection refused", [5000]).
Proof. vm_compute. reflexivity. Qed.

(** ** The run flags *)

Section RunStateFacts.

Import RunState.

Variable k : Kind.

(** A start request on a loop whose flag is up changes nothing and answers
    with the status message. *)
Lemma start_when_running_is_noop st :
  running st = true -> start k st = (st, already_running k).
Proof. intros Hrunning. unfold start. rewrite Hrunning. reflexivity. Qed.

(** A start request on a loop whose flag is down raises the flag and starts
    one more thread. *)
Lemma start_when_stopped_spawns st :
  running st = false ->
  running (fst (start k st)) = true
  /\ active (fst (start k st)) = S (active st)
  /\ snd (start k st) = started_message k.
Proof.
  intros Hstopped. unfold start, active. rewrite Hstopped. cbn.
  rewrite length_app. cbn. split; [reflexivity |]. split; [lia | reflexivity].
Qed.

(** As long as nobody asks to stop, at most one thread is active. *)
Lemma one_thread_without_stop events :
  Forall (fun e => e <> Stop) events ->
  (active (run k events initial) <= 1)%nat.
Proof.
  assert (Hinv : forall events st,
             Forall (fun e => e <> Stop) events ->
             (running st = false /\ alive st = []
              \/ running st = true /\ length (alive st) = 1%nat) ->
             (active (run k events st) <= 1)%nat).
  { clear events. induction events as [| e events IH]; intros st Hnostop Hst.
    - unfold run, active. cbn. destruct Hst as [[_ ->] | [_ ->]]; cbn; lia.
    - inversion Hnostop as [| e' events' He Hrest]; subst.
      change (run k (e :: events) st) with (run k events (step k st e)).
      apply IH; [exact Hrest |].
      destruct e as [| | tid]; [| congruence |].
      + unfold step, start. destruct Hst as [[Hoff Hnone] | [Hon Hone]].
        * rewrite Hoff. cbn. rewrite Hnone. right. auto.
        * rewrite Hon. cbn. right. auto.
      + unfold step, poll. destruct Hst as [[Hoff Hnone] | [Hon Hone]].
        * rewrite Hoff. cbn. rewrite Hnone. left. auto.
        * rewrite Hon. right. auto. }
  intros Hnostop. apply Hinv; [exact Hnostop | left; auto].
Qed.

(** C7 at the failing input.  Start, stop, then start again before the first
    thread has come round to check the flag: the second start finds the flag
    down and starts a second thread, the flag is up again, and the first
    thread, when it checks, carries on.  Two threads of the same kind are
    active, and both stay. *)
Theorem restart_leaves_two_threads :
  let st := run k [Start; Stop; Start] initial in
  running st = true
  /\ alive st = [0%nat; 1%nat]
  /\ active st = 2%nat
  /\ poll 0 st = st
  /\ poll 1 st = st.
Proof. cbv zeta. repeat split; reflexivity. Qed.

(** With the first thread checking the flag between the stop and the second
    start, one thread is left. *)
Lemma restart_after_poll_leaves_one_thread :
  active (run k [Start; Stop; Poll 0; Start] initial) = 1%nat.
Proof. reflexivity. Qed.

End RunStateFacts.

(** * More properties *)

(** ** Escaping for InfluxQL *)

Section Escaping.

Variable q : ascii.
Hypothesis q_not_backslash : q <> backslash.

Local Abbreviation escape value :=
  (replace_char q (String backslash (String q EmptyString))
     (replace_char backslash (String backslash (String backslash EmptyString)) value)).

Lemma append_pair a b r :
  String a (String b EmptyString) +:+ r = String a (String b r).
Proof. reflexivity. Qed.

(** The two passes amount to one pass over the characters. *)
Lemma escape_cons c s :
  escape (String c s) =
    if Ascii.eqb c backslash then String backslash (String backslash (escape s))
    else if Ascii.eqb c q then String backslash (String q (escape s))
    else String c (escape s).
Proof.
  cbn [replace_char].
  destruct (Ascii.eqb_spec c backslash) as [-> | Hc].
  - rewrite append_pair. cbn [replace_char].
    destruct (Ascii.eqb_spec backslash q) as [Heq | _]; [congruence | reflexivity].
  - cbn [replace_char].
    destruct (Ascii.eqb_spec c q) as [-> | Hq]; [rewrite append_pair |]; reflexivity.
Qed.

Lemma escape_escaped s : escaped q (escape s).
Proof.
  induction s as [| c s IH]; [constructor |].
  rewrite escape_cons.
  destruct (Ascii.eqb_spec c backslash) as [-> | Hc].
  - apply escaped_pair; [left; reflexivity | exact IH].
  - destruct (Ascii.eqb_spec c q) as [-> | Hq].
    + apply escaped_pair; [right; reflexivity | exact IH].
    + apply escaped_plain; assumption.
Qed.

Lemma escape_injective : forall a b, escape a = escape b -> a = b.
Proof.
  induction a as [| c a IH]; intros [| d b] Heq.
  - reflexivity.
  - rewrite escape_cons in Heq. cbn in Heq.
    destruct (Ascii.eqb d backslash); [discriminate |].
    destruct (Ascii.eqb d q); discriminate.
  - rewrite escape_cons in Heq. cbn in Heq.
    destruct (Ascii.eqb c backslash); [discriminate |].
    destruct (Ascii.eqb c q); discriminate.
  - rewrite !escape_cons in Heq.
    destruct (Ascii.eqb_spec c backslash) as [-> | Hc];
      destruct (Ascii.eqb_spec d backslash) as [-> | Hd].
    + inversion Heq as [Hrest]. f_equal. apply IH. exact Hrest.
    + destruct (Ascii.eqb_spec d q) as [-> | Hdq].
      * inversion Heq. congruence.
      * inversion Heq. congruence.
    + destruct (Ascii.eqb_spec c q) as [-> | Hcq].
      * inversion Heq. congruence.
      * inversion Heq. congruence.
    + destruct (Ascii.eqb_spec c q) as [-> | Hcq];
        destruct (Ascii.eqb_spec d q) as [-> | Hdq].
      * inversion Heq as [Hrest]. f_equal. apply IH. exact Hrest.
      * inversion Heq. congruence.
      * inversion Heq. congruence.
      * inversion Heq as [[Hhead Hrest]]. f_equal. apply IH. exact Hrest.
Qed.

(** A text without backslash and quote goes through unchanged. *)
Lemma escape_plain s :
  (forall c, c ∈ list_ascii_of_string s -> c <> backslash /\ c <> q) ->
  escape s = s.
Proof.
  induction s as [| c s IH]; intros Hplain; [reflexivity |].
  rewrite escape_cons.
  destruct (Hplain c) as [Hc Hq]; [cbn; left |].
  destruct (Ascii.eqb_spec c backslash) as [? | _]; [contradiction |].
  destruct (Ascii.eqb_spec c q) as [? | _]; [contradiction |].
  f_equal. apply IH. intros d Hd. apply Hplain. cbn. right. exact Hd.
Qed.

End Escaping.

Lemma single_quote_not_backslash : single_quote <> backslash.
Proof. discriminate. Qed.

Lemma double_quote_not_backslash : double_quote <> backslash.
Proof. discriminate. Qed.

(** X1.  [influx_escape] leaves no bare quote and no bare backslash: in its
    result the two stand only in the pairs backslash-backslash and
    backslash-quote.  It loses nothing: two values have the same escaped text
    only when they are the same value. *)
Theorem influx_escape_safe_and_lossless :
  (forall value, escaped single_quote (influx_escape value))
  /\ (forall a b, influx_escape a = influx_escape b <-> a = b).
Proof.
  split.
  - intros value. apply escape_escaped. exact single_quote_not_backslash.
  - intros a b. split; [| intros ->; reflexivity].
    apply escape_injective. exact single_quote_not_backslash.
Qed.

(** X2.  [influx_identifier] does for the double quote what [influx_escape]
    does for the single quote, and [influx_string] is [influx_escape]. *)
Theorem influx_identifier_safe_and_lossless :
  (forall value, escaped double_quote (influx_identifier value))
  /\ (forall a b, influx_identifier a = influx_identifier b <-> a = b)
  /\ (forall value, influx_string value = influx_escape value).
Proof.
  split; [| split].
  - intros value. apply escape_escaped. exact double_quote_not_backslash.
  - intros a b. split; [| intros ->; reflexivity].
    apply escape_injective. exact double_quote_not_backslash.
  - reflexivity.
Qed.

Example influx_escape_quote_and_backslash :
  influx_escape "it's a\b" = "it\'s a\\b".
Proof. reflexivity. Qed.

(** ** [strip] *)

Lemma lstrip_no_space c s : is_space c = false -> lstrip (String c s) = String c s.
Proof. intros Hc. cbn [lstrip]. rewrite Hc. reflexivity. Qed.

Lemma lstrip_head s :
  lstrip s = EmptyString
  \/ exists c s', lstrip s = String c s' /\ is_space c = false.
Proof.
  induction s as [| c s IH]; [left; reflexivity |].
  cbn [lstrip]. destruct (is_space c) eqn:Hc; [exact IH |].
  right. exists c, s. auto.
Qed.

Lemma rstrip_no_space c s :
  is_space c = false -> rstrip (String c s) = String c (rstrip s).
Proof.
  intros Hc. cbn [rstrip]. destruct (rstrip s); [rewrite Hc |]; reflexivity.
Qed.

Lemma rstrip_idempotent s : rstrip (rstrip s) = rstrip s.
Proof.
  induction s as [| c s IH]; [reflexivity |].
  cbn [rstrip]. destruct (rstrip s) as [| d r] eqn:Hr.
  - destruct (is_space c) eqn:Hc; [reflexivity |].
    cbn [rstrip]. rewrite Hc. reflexivity.
  - change (rstrip (String c (String d r))) with
      (match rstrip (String d r) with
       | EmptyString => if is_space c then EmptyString else String c EmptyString
       | r' => String c r'
       end).
    rewrite IH. reflexivity.
Qed.

(** Stripping twice is stripping once. *)
Lemma strip_idempotent s : strip (strip s) = strip s.
Proof.
  unfold strip. destruct (lstrip_head s) as [Hnil | (c & s' & Hhead & Hc)].
  - rewrite Hnil. reflexivity.
  - rewrite Hhead, (rstrip_no_space c s' Hc), (lstrip_no_space c _ Hc),
      (rstrip_no_space c _ Hc), rstrip_idempotent. reflexivity.
Qed.

Lemma is_empty_false s : is_empty s = false <-> s <> EmptyString.
Proof. destruct s; cbn; split; congruence. Qed.

Lemma str_or_strip_idempotent label nodeid :
  strip (str_or (strip label) (strip nodeid)) = str_or (strip label) (strip nodeid).
Proof. unfold str_or. destruct (is_empty (strip label)); apply strip_idempotent. Qed.

Lemma str_or_kepware_idempotent machine_id :
  str_or (strip (str_or (strip machine_id) "Kepware")) "Kepware"
  = str_or (strip machine_id) "Kepware".
Proof.
  unfold str_or at 2 3. destruct (is_empty (strip machine_id)) eqn:Hm.
  - reflexivity.
  - rewrite strip_idempotent. unfold str_or. rewrite Hm. reflexivity.
Qed.

(** ** Saving the selection *)





(** ** Saving the loops *)






Section SavedLoops.

Context {World : Type} `{Collaborators World}.

(** The loop/PID loop looks at an entry through [strip] and the machine id
    default only. *)
Lemma loop_read_entry_same_fields ticks now_sec (a b : LoopEntry) :
  strip (loop_id a) = strip (loop_id b) ->
  str_or (strip (machine_id a)) "Kepware" = str_or (strip (machine_id b)) "Kepware" ->
  strip (pv_nodeid a) = strip (pv_nodeid b) ->
  strip (sp_nodeid a) = strip (sp_nodeid b) ->
  strip (co_nodeid a) = strip (co_nodeid b) ->
  loop_read_entry ticks now_sec a = loop_read_entry ticks now_sec b.
Proof.
  intros Hid Hm Hpv Hsp Hco. unfold loop_read_entry.
  rewrite Hid, Hm, Hpv, Hsp, Hco. reflexivity.
Qed.

(** X5.  The loop/PID loop logs from the saved entries exactly what it would
    log from the entries as they were posted: the entries [api_save_loops]
    drops are entries the loop passes over without a read, and the fields it
    rewrites are read by the loop to the same values. *)
Theorem saved_loops_log_the_same ticks now_sec loops :
  forall cache w,
    loop_read_entries ticks now_sec
      (map loop_as_entry (fst (api_save_loops loops))) cache w
    = loop_read_entries ticks now_sec (map loop_as_entry loops) cache w.
Proof.
  unfold api_save_loops. cbn [fst].
  induction loops as [| loop loops IH]; intros cache w; [reflexivity |].
  cbn [clean_loops]. destruct (is_empty (strip (lp_loop_id loop))) eqn:Hid.
  - cbn [map loop_read_entries]. rewrite IH.
    assert (Hskip : loop_read_entry ticks now_sec (loop_as_entry loop) cache w
                    = (Returned ([], cache), w)).
    { apply loop_read_entry_unconfigured. unfold unconfigured.
      cbn [loop_as_entry loop_id]. rewrite Hid. reflexivity. }
    py_unfold. rewrite Hskip.
    destruct (loop_read_entries ticks now_sec (map loop_as_entry loops) cache w)
      as [[[more cache'] | msg] w']; reflexivity.
  - cbn [map loop_read_entries]. py_unfold.
    rewrite (loop_read_entry_same_fields ticks now_sec _ (loop_as_entry loop));
      cbn [loop_as_entry loop_id machine_id pv_nodeid sp_nodeid co_nodeid
           lp_loop_id lp_machine_id lp_pv_nodeid lp_sp_nodeid lp_co_nodeid];
      try apply strip_idempotent; [| apply str_or_kepware_idempotent].
    destruct (loop_read_entry ticks now_sec (loop_as_entry loop) cache w)
      as [[[points c1] | msg] w1]; [| reflexivity].
    rewrite IH. reflexivity.
Qed.

End SavedLoops.

(** ** The debug events *)

Lemma len_drop {A} (n : nat) (l : list A) : len (drop n l) = Z.max 0 (len l - Z.of_nat n).
Proof. unfold len. rewrite length_drop. lia. Qed.

(** X6.  [add_debug_event] keeps the event log within [DEBUG_EVENTS_MAX]
    whatever its length was: the log it leaves is the end of the old log with
    the new event appended, [min (n + 1) DEBUG_EVENTS_MAX] events long, the new
    event last; with room left nothing is dropped. *)
Theorem add_debug_event_bounded ts level message details (debug_events : list DebugEvent) :
  let event := mkDebugEvent ts level message (default [] details) in
  let log := fst (add_debug_event ts level message details debug_events) in
  len log = Z.min (len debug_events + 1) DEBUG_EVENTS_MAX
  /\ len log <= DEBUG_EVENTS_MAX
  /\ (exists dropped, debug_events ++ [event] = dropped ++ log)
  /\ last log = Some event
  /\ (len debug_events < DEBUG_EVENTS_MAX -> log = debug_events ++ [event]).
Proof.
  cbv zeta. unfold add_debug_event. cbn [fst].
  set (event := mkDebugEvent ts level message (default [] details)).
  assert (Hlen : len (debug_events ++ [event]) = len debug_events + 1).
  { unfold len. rewrite length_app. cbn. lia. }
  pose proof (len_nonneg debug_events) as Hpos.
  destruct (Z.ltb_spec DEBUG_EVENTS_MAX (len (debug_events ++ [event])))
    as [Hover | Hfits]; unfold DEBUG_EVENTS_MAX in *.
  - unfold slice_from. rewrite len_drop, Z2Nat.id by lia.
    split; [lia |]. split; [lia |]. split.
    + eexists. symmetry. apply take_drop.
    + split; [| lia].
      rewrite drop_app_le by (unfold len in *; rewrite length_app in *; cbn in *; lia).
      apply last_snoc.
  - split; [lia |]. split; [lia |]. split; [exists []; reflexivity |].
    split; [apply last_snoc | reflexivity].
Qed.

Lemma py_slice_from_suffix {A} (start : Z) (l : list A) :
  exists older, l = older ++ py_slice_from start l.
Proof.
  unfold py_slice_from. destruct (start <? 0); eexists; symmetry; apply take_drop.
Qed.

Lemma len_py_slice_from_negative {A} (n : Z) (l : list A) :
  0 < n -> len (py_slice_from (- n) l) = Z.min n (len l).
Proof.
  intros Hn. unfold py_slice_from.
  destruct (Z.ltb_spec (- n) 0) as [_ | Hge]; [| lia].
  rewrite len_drop. pose proof (len_nonneg l). lia.
Qed.

(** X7.  [api_debug_events] answers with the newest events of the log: the
    limit it uses is 120 when the parameter does not parse and the parameter
    clamped into [1 .. 500] otherwise, and the answer is the end of the log,
    [min limit n] events long; so it never holds more than 500 events and is
    empty only when the log is. *)
Theorem api_debug_events_newest parsed (debug_events : list DebugEvent) :
  let limit := match parsed with Some n => Z.max 1 (Z.min 500 n) | None => 120 end in
  let events := api_debug_events parsed debug_events in
  1 <= limit <= 500
  /\ (exists older, debug_events = older ++ events)
  /\ len events = Z.min limit (len debug_events)
  /\ len events <= 500
  /\ (events = [] <-> debug_events = []).
Proof.
  cbv zeta. unfold api_debug_events.
  set (limit := match parsed with Some n => Z.max 1 (Z.min 500 n) | None => 120 end).
  assert (Hlimit : 1 <= limit <= 500) by (subst limit; destruct parsed; lia).
  pose proof (len_nonneg debug_events) as Hpos.
  pose proof (len_py_slice_from_negative limit debug_events ltac:(lia)) as Hlen.
  split; [exact Hlimit |]. split; [apply py_slice_from_suffix |].
  split; [exact Hlen |]. split; [lia |].
  rewrite <- !len_nil_iff. lia.
Qed.

(** ** The counts of the tag catalog *)

Section CatalogCounts.

Import Catalog.

Implicit Types (items : list (State * option Z)) (counts : gmap string Z).

Lemma state_name_injective s s' : state_name s = state_name s' -> s = s'.
Proof. destruct s, s'; cbn; intros Heq; first [reflexivity | discriminate]. Qed.

Lemma in_state_cons s state age items :
  in_state s ((state, age) :: items)
  = (if decide (state = s) then 1 else 0) + in_state s items.
Proof.
  unfold in_state, len. destruct (decide (state = s)) as [Heq | Hne].
  - rewrite filter_cons_True by exact Heq. cbn [length]. lia.
  - rewrite filter_cons_False by exact Hne. lia.
Qed.

Lemma in_state_nonneg s items : 0 <= in_state s items.
Proof. unfold in_state. apply len_nonneg. Qed.

(** Every item is in one of the five states. *)
Lemma in_state_total items :
  len items = in_state live items + in_state recent items + in_state cached items
              + in_state stale items + in_state unknown items.
Proof.
  induction items as [| [state age] items IH]; [reflexivity |].
  rewrite !in_state_cons.
  replace (len ((state, age) :: items)) with (1 + len items)
    by (unfold len; cbn [length]; lia).
  rewrite IH. destruct state; repeat case_decide; first [congruence | lia].
Qed.

Lemma catalog_counts_spec items : forall counts max_age,
  let '(counts', max_age') := catalog_counts items counts max_age in
  (forall s, default 0 (counts' !! state_name s)
             = default 0 (counts !! state_name s) + in_state s items)
  /\ max_age <= max_age'
  /\ (forall state age, (state, Some age) ∈ items -> age <= max_age')
  /\ (max_age' = max_age \/ exists state, (state, Some max_age') ∈ items).
Proof.
  induction items as [| [state age] items IH]; intros counts max_age.
  - cbn. split; [intros s; unfold in_state, len; cbn; lia |].
    split; [lia |]. split; [| left; reflexivity].
    intros state age Hin. apply elem_of_nil in Hin. contradiction.
  - cbn [catalog_counts].
    set (counts1 := <[state_name state :=
                       default 0 (counts !! state_name state) + 1]> counts).
    set (max1 := match age with Some a => Z.max max_age a | None => max_age end).
    specialize (IH counts1 max1).
    destruct (catalog_counts items counts1 max1) as [counts' max_age'].
    destruct IH as (Hcounts & Hmax & Hages & Hattained).
    assert (Hmax1 : max_age <= max1) by (subst max1; destruct age; lia).
    split.
    { intros s. rewrite Hcounts, in_state_cons. subst counts1.
      destruct (decide (state = s)) as [-> | Hne].
      - rewrite lookup_insert_eq. cbn. lia.
      - rewrite lookup_insert_ne; [lia |].
        intros Heq. apply Hne. apply state_name_injective. exact Heq. }
    split; [lia |]. split.
    { intros state' age' Hin. apply elem_of_cons in Hin as [Heq | Hin].
      - inversion Heq; subst. subst max1. cbn in *. lia.
      - eapply Hages. exact Hin. }
    destruct Hattained as [Heq | (state' & Hin)].
    + subst max1. destruct age as [a |]; [| left; exact Heq].
      destruct (Z.max_spec max_age a) as [[_ Hm] | [_ Hm]]; rewrite Hm in Heq.
      * right. exists state. rewrite Heq. apply elem_of_cons. left. reflexivity.
      * left. exact Heq.
    + right. exists state'. apply elem_of_cons. right. exact Hin.
Qed.

Lemma zero_counts_lookup s : default 0 (zero_counts !! state_name s) = 0.
Proof. destruct s; reflexivity. Qed.

Lemma backend_items_never_cached ages : in_state cached (backend_items ages) = 0.
Proof.
  induction ages as [| age ages IH]; [reflexivity |].
  cbn [backend_items map]. rewrite in_state_cons.
  fold (backend_items ages). rewrite IH.
  destruct (decide (backend_item_state age = cached)) as [Heq | _]; [| reflexivity].
  exfalso. exact (classify_never_cached age Heq).
Qed.

(** X8.  The [meta] of the tag catalog: each of the five counts is the number
    of items in that state, so the counts add up to ["total"];
    ["max_age_seconds"] is never negative, is at least every item's age, and
    is 0 or the age of an item; and for the items built from the Historian
    backend the count of [cached] is 0. *)
Theorem catalog_meta_counts items :
  let '(total, counts, max_age_seconds) := catalog_meta items in
  total = len items
  /\ (forall s, default 0 (counts !! state_name s) = in_state s items)
  /\ total = default 0 (counts !! "live") + default 0 (counts !! "recent")
             + default 0 (counts !! "cached") + default 0 (counts !! "stale")
             + default 0 (counts !! "unknown")
  /\ 0 <= max_age_seconds
  /\ (forall state age, (state, Some age) ∈ items -> age <= max_age_seconds)
  /\ (max_age_seconds = 0 \/ exists state, (state, Some max_age_seconds) ∈ items)
  /\ ((exists ages, items = backend_items ages) ->
      default 0 (counts !! "cached") = 0).
Proof.
  unfold catalog_meta.
  pose proof (catalog_counts_spec items zero_counts 0) as Hspec.
  destruct (catalog_counts items zero_counts 0) as [counts max_age_seconds].
  destruct Hspec as (Hcounts & Hmax & Hages & Hattained).
  assert (Heach : forall s, default 0 (counts !! state_name s) = in_state s items).
  { intros s. rewrite Hcounts, zero_counts_lookup. lia. }
  split; [reflexivity |]. split; [exact Heach |]. split.
  { rewrite (in_state_total items).
    rewrite <- (Heach live), <- (Heach recent), <- (Heach cached),
      <- (Heach stale), <- (Heach unknown). reflexivity. }
  split; [exact Hmax |]. split; [exact Hages |]. split; [exact Hattained |].
  intros (ages & ->). change "cached" with (state_name cached).
  rewrite Heach. apply backend_items_never_cached.
Qed.

End CatalogCounts.

(** ** The value cache over time *)

Section CacheFacts.

Context {World : Type} `{Collaborators World}.

Implicit Types (cache : gmap string CachedReading) (w : World).

(** X9.  The cache round trip.  A read that succeeds at time [t0] stores the
    value under the node id and leaves every other entry alone; from that
    cache, a read of the same node that fails at time [t1] hands back the
    stored value, marked as cached and aged [int(t1 - t0)] seconds, when that
    age is within the maximal age given, and nothing when it is not. *)
Theorem cached_value_round_trip nodeid cache max_age w t0 wa value wb
    (Hclock : wall_clock w = (t0, wa))
    (Hlive : live_read nodeid wa = (Returned value, wb)) :
  exists cache1,
    read_numeric_with_cache nodeid cache max_age w
      = (Returned ((Some value, false, Some 0, ""), cache1), wb)
    /\ cache1 !! nodeid = Some (mkCached value t0)
    /\ (forall other, other <> nodeid -> cache1 !! other = cache !! other)
    /\ forall max_age' w2 t1 w2a err w2b,
        wall_clock w2 = (t1, w2a) ->
        live_read nodeid w2a = (Raised err, w2b) ->
        read_numeric_with_cache nodeid cache1 max_age' w2
        = (Returned
             (if whole_seconds (t1 - t0) <=? max_age'
              then (Some value, true, Some (whole_seconds (t1 - t0)), err)
              else (None, false, None, err),
              cache1), w2b).
Proof.
  exists (<[nodeid := mkCached value t0]> cache).
  split; [eapply read_live_returned; eassumption |].
  split; [apply lookup_insert_eq |].
  split; [intros other Hother; apply lookup_insert_ne; congruence |].
  intros max_age' w2 t1 w2a err w2b Hclock2 Hlive2.
  rewrite (read_live_raised _ _ max_age' _ _ _ _ _ Hclock2 Hlive2).
  unfold fallback_tuple. rewrite lookup_insert_eq. cbn [cached_ts cached_value].
  reflexivity.
Qed.





End CacheFacts.

(** A run of X9: the process value is read at 4 s. *)
Lemma cached_value_round_trip_witness :
  exists cache1,
    read_numeric_with_cache "ns=2;s=PV" ∅ 30 (Script.plant 4000000 [] 0)
      = (Returned ((Some 1.5%float, false, Some 0, ""), cache1),
         Script.plant 4000000 [] 0).
Proof.
  destruct (cached_value_round_trip (H := Script.collaborators)
              "ns=2;s=PV" ∅ 30 (Script.plant 4000000 [] 0) 4000000
              (Script.plant 4000000 [] 0) 1.5%float (Script.plant 4000000 [] 0))
    as (cache1 & Hread & _).
  - reflexivity.
  - reflexivity.
  - exists cache1. exact Hread.
Defined.

(** ** The writer against steady sinks, and the backlog *)

Section BacklogFacts.

Context {World : Type} `{Collaborators World}.

Implicit Types (q pending : list Point) (w : World).

(** X11.  Against an InfluxDB that accepts every batch, a flush writes the
    whole queue: it returns the length of the queue and an empty error string
    and leaves the queue empty; so the tail of a cycle leaves nothing
    pending. *)
Theorem flush_empties_queue q rp w
    (Haccept : forall batch w0, exists w0',
        influx_write_points batch rp w0 = (Returned tt, w0')) :
  (exists w', write_pending_points q rp w = (Returned (len q, "", []), w'))
  /\ (forall pending new_points, exists w',
        enqueue_flush_trim pending new_points rp w = (Returned [], w')).
Proof.
  assert (Hflush : forall q0 w0, exists w',
             write_pending_points q0 rp w0 = (Returned (len q0, "", []), w')).
  { intros q0 w0.
    destruct (write_pending_points_spec q0 rp w0)
      as (n & err & q' & w1 & w' & Hrun & Hflushed
          & [(-> & -> & ->) | (_ & Hraised)]).
    - destruct (flushed_prefix _ _ _ _ _ _ Hflushed) as (written & Hq & Hn).
      rewrite app_nil_r in Hq. subst written n. exists w1. exact Hrun.
    - destruct (Haccept (slice_to WRITE_BATCH_SIZE q') w1) as (w0' & Hok).
      rewrite Hok in Hraised. discriminate. }
  split; [apply Hflush |].
  intros pending new_points. unfold enqueue_flush_trim.
  destruct (pending ++ new_points) as [| p rest]; [exists w; reflexivity |].
  destruct (Hflush (p :: rest) w) as (w' & Hrun).
  py_unfold. rewrite Hrun. exists w'. reflexivity.
Qed.

(** X12.  Points leave the pending list at the front only, by a write or by
    the trim: after the tail of a cycle the list is an end of the old list
    followed by the new points, never longer than the cap.  Against an
    InfluxDB that refuses every batch it is exactly the old list followed by
    the new points, trimmed to the cap. *)
Theorem backlog_keeps_the_newest pending new_points rp w :
  exists q w',
    enqueue_flush_trim pending new_points rp w = (Returned q, w')
    /\ (exists gone, pending ++ new_points = gone ++ q)
    /\ len q <= MAX_PENDING_POINTS
    /\ ((forall batch w0, exists err w0',
            influx_write_points batch rp w0 = (Raised err, w0')) ->
        q = trim_pending (pending ++ new_points)).
Proof.
  unfold enqueue_flush_trim.
  destruct (pending ++ new_points) as [| p rest] eqn:Hqueue.
  - exists [], w. split; [reflexivity |].
    split; [exists []; reflexivity |].
    split; [unfold MAX_PENDING_POINTS, len; cbn; lia |].
    intros _. reflexivity.
  - destruct (write_pending_points_spec (p :: rest) rp w)
      as (n & err & q' & w1 & w' & Hrun & Hflushed & _).
    py_unfold. rewrite Hrun. exists (trim_pending q'), w'.
    split; [reflexivity |].
    destruct (flushed_prefix _ _ _ _ _ _ Hflushed) as (written & Hq & _).
    split.
    { exists (written ++ slice_to (Z.max 0 (len q' - MAX_PENDING_POINTS)) q').
      rewrite <- app_assoc, trim_pending_split. exact Hq. }
    split; [rewrite len_trim_pending; lia |].
    intros Hrefuse.
    destruct (flushed_refused _ _ _ _ _ _ Hrefuse Hflushed) as (-> & _).
    reflexivity.
Qed.

End BacklogFacts.

(** A run of X11: three pending points against an InfluxDB that accepts. *)
Lemma flush_empties_queue_witness :
  exists w' : Accepting.World,
    write_pending_points Script.three_points "" [] = (Returned (3, "", []), w').
Proof.
  refine (proj1 (flush_empties_queue (H := Accepting.collaborators)
                   Script.three_points "" [] _)).
  intros batch w0. exists (batch :: w0). reflexivity.
Defined.

(** ** The ticks of a turn, in general *)

(** X13.  A turn that proceeds ([next_tick <= now_sec]) logs the newest
    seconds up to [now_sec]: the [n] seconds ending at [now_sec], where [n] is
    the number of seconds due, [now_sec - next_tick + 1], cut to
    [LOOP_MAX_BACKFILL_SECONDS]; so at least one tick and never more than the
    cap, and the last tick is [now_sec]. *)
Theorem ticks_are_the_newest_seconds next now_sec (Hdue : next <= now_sec) :
  let n := Z.min (now_sec - next + 1) LOOP_MAX_BACKFILL_SECONDS in
  tick_timestamps next now_sec = seqZ (now_sec + 1 - n) n
  /\ len (tick_timestamps next now_sec) = n
  /\ 1 <= n <= LOOP_MAX_BACKFILL_SECONDS
  /\ last (tick_timestamps next now_sec) = Some now_sec.
Proof.
  cbv zeta. unfold LOOP_MAX_BACKFILL_SECONDS.
  set (n := Z.min (now_sec - next + 1) 10).
  assert (Hn : 1 <= n <= 10) by lia.
  assert (Hticks : tick_timestamps next now_sec = seqZ (now_sec + 1 - n) n).
  { unfold tick_timestamps, py_range, LOOP_MAX_BACKFILL_SECONDS.
    f_equal; lia. }
  split; [exact Hticks |]. rewrite Hticks.
  split; [unfold len; rewrite length_seqZ; lia |].
  split; [exact Hn |].
  rewrite last_lookup, length_seqZ.
  rewrite lookup_seqZ_lt by lia. f_equal. lia.
Qed.

(** A run of X13: a stall of 25 seconds is made good for the last ten. *)
Lemma ticks_are_the_newest_seconds_witness :
  tick_timestamps 100 125 = seqZ 116 10.
Proof.
  exact (proj1 (ticks_are_the_newest_seconds 100 125 ltac:(lia))).
Defined.

(** ** The points of the raw loop *)

Section RawFacts.

Context {World : Type} `{Collaborators World}.

Implicit Types (cache : gmap string CachedReading) (w : World).





End RawFacts.

(** ** Starting and stopping a loop *)

(** A run of X15: two start requests and a flag check, no stop. *)
Lemma one_thread_without_stop_witness :
  (RunState.active
     (RunState.run RunState.Raw
        [RunState.Start; RunState.Poll 0; RunState.Start] RunState.initial) <= 1)%nat.
Proof.
  apply (one_thread_without_stop RunState.Raw
           [RunState.Start; RunState.Poll 0; RunState.Start]).
  repeat constructor; discriminate.
Defined.

Section StopFacts.

Import RunState.

Variable k : Kind.

Lemma polls_when_stopped tids : forall st,
  running st = false ->
  running (run k (map Poll tids) st) = false
  /\ forall i, i ∈ alive (run k (map Poll tids) st) <-> i ∈ alive st /\ i ∉ tids.
Proof.
  induction tids as [| tid tids IH]; intros st Hoff.
  - cbn. split; [exact Hoff |]. intros i. split; [| tauto].
    intros Hi. split; [exact Hi | apply not_elem_of_nil].
  - change (run k (map Poll (tid :: tids)) st)
      with (run k (map Poll tids) (poll tid st)).
    assert (Hpoll : poll tid st
                    = mk false (thread st) (started st)
                        (filter (fun i => i <> tid) (alive st))).
    { unfold poll. rewrite Hoff. reflexivity. }
    rewrite Hpoll.
    destruct (IH (mk false (thread st) (started st)
                    (filter (fun i => i <> tid) (alive st))) eq_refl)
      as (Hrun & Halive).
    split; [exact Hrun |]. intros i. rewrite Halive. cbn [alive].
    rewrite list_elem_of_filter, not_elem_of_cons. tauto.
Qed.

(** X16.  Stopping is cooperative and complete: after a stop request, once
    every thread that was active has come round to its flag check, no thread
    of the kind is active and the flag is down; a start request then gets
    exactly one thread going. *)
Theorem stop_winds_down st :
  let stopped := run k (Stop :: map Poll (alive st)) st in
  running stopped = false
  /\ active stopped = 0%nat
  /\ running (fst (start k stopped)) = true
  /\ active (fst (start k stopped)) = 1%nat.
Proof.
  cbv zeta.
  change (run k (Stop :: map Poll (alive st)) st)
    with (run k (map Poll (alive st)) (fst (stop k st))).
  destruct (polls_when_stopped (alive st) (fst (stop k st)) eq_refl)
    as (Hoff & Halive).
  assert (Hnone : alive (run k (map Poll (alive st)) (fst (stop k st))) = []).
  { apply elem_of_nil_inv. intros i Hi. apply Halive in Hi as [Hin Hout].
    apply Hout. exact Hin. }
  split; [exact Hoff |].
  split; [unfold active; rewrite Hnone; reflexivity |].
  destruct (start_when_stopped_spawns k _ Hoff) as (Hon & Hactive & _).
  split; [exact Hon |].
  rewrite Hactive. unfold active. rewrite Hnone. reflexivity.
Qed.

End StopFacts.

(** ** Selections in the wizard *)

Lemma clean_nodeids_from_spec : forall (nodeids clean : list string),
  NoDup clean ->
  NoDup (clean_nodeids_from clean nodeids)
  /\ forall x, x ∈ clean_nodeids_from clean nodeids <->
               x ∈ clean
               \/ x <> EmptyString /\ exists raw, raw ∈ nodeids /\ strip raw = x.
Proof.
  induction nodeids as [| nodeid nodeids IH]; intros clean Hnodup.
  - cbn. split; [exact Hnodup |]. intros x. split; [auto |].
    intros [Hin | (_ & raw & Hraw & _)]; [exact Hin |].
    apply elem_of_nil in Hraw. contradiction.
  - cbn [clean_nodeids_from].
    destruct (is_empty (strip nodeid)) eqn:Hempty; cbn [negb andb].
    + destruct (IH clean Hnodup) as [Hnd Hmem]. split; [exact Hnd |].
      intros x. rewrite Hmem. split.
      * intros [Hin | (Hx & raw & Hraw & Hstrip)]; [left; exact Hin |].
        right. split; [exact Hx |]. exists raw. split; [| exact Hstrip].
        apply elem_of_cons. right. exact Hraw.
      * intros [Hin | (Hx & raw & Hraw & Hstrip)]; [left; exact Hin |].
        apply elem_of_cons in Hraw as [-> | Hraw].
        -- exfalso. apply Hx. rewrite <- Hstrip.
           destruct (strip nodeid); [reflexivity | discriminate].
        -- right. split; [exact Hx |]. exists raw. auto.
    + apply is_empty_false in Hempty.
      destruct (decide (strip nodeid ∈ clean)) as [Hseen | Hnew].
      * rewrite bool_decide_eq_true_2 by exact Hseen. cbn [negb].
        destruct (IH clean Hnodup) as [Hnd Hmem]. split; [exact Hnd |].
        intros x. rewrite Hmem. split.
        -- intros [Hin | (Hx & raw & Hraw & Hstrip)]; [left; exact Hin |].
           right. split; [exact Hx |]. exists raw. split; [| exact Hstrip].
           apply elem_of_cons. right. exact Hraw.
        -- intros [Hin | (Hx & raw & Hraw & Hstrip)]; [left; exact Hin |].
           apply elem_of_cons in Hraw as [-> | Hraw].
           ++ left. rewrite <- Hstrip. exact Hseen.
           ++ right. split; [exact Hx |]. exists raw. auto.
      * rewrite bool_decide_eq_false_2 by exact Hnew. cbn [negb].
        assert (Hnodup' : NoDup (clean ++ [strip nodeid])).
        { apply NoDup_app. split; [exact Hnodup |]. split.
          - intros x Hx Hx'. apply list_elem_of_singleton in Hx'. subst x.
            exact (Hnew Hx).
          - apply NoDup_singleton. }
        destruct (IH _ Hnodup') as [Hnd Hmem]. split; [exact Hnd |].
        intros x. rewrite Hmem, elem_of_app, list_elem_of_singleton. split.
        -- intros [[Hin | ->] | (Hx & raw & Hraw & Hstrip)].
           ++ left. exact Hin.
           ++ right. split; [exact Hempty |]. exists nodeid.
              split; [apply elem_of_cons; left; reflexivity | reflexivity].
           ++ right. split; [exact Hx |]. exists raw. split; [| exact Hstrip].
              apply elem_of_cons. right. exact Hraw.
        -- intros [Hin | (Hx & raw & Hraw & Hstrip)]; [left; left; exact Hin |].
           apply elem_of_cons in Hraw as [-> | Hraw].
           ++ left. right. symmetry. exact Hstrip.
           ++ right. split; [exact Hx |]. exists raw. auto.
Qed.

(** X17.  The node ids [api_opc_read_many] reads hold no duplicate, and are
    exactly the stripped node ids of the request that are not empty. *)
Theorem clean_nodeids_distinct (nodeids : list string) :
  NoDup (clean_nodeids nodeids)
  /\ forall x, x ∈ clean_nodeids nodeids <->
               x <> EmptyString /\ exists raw, raw ∈ nodeids /\ strip raw = x.
Proof.
  destruct (clean_nodeids_from_spec nodeids [] (NoDup_nil_2)) as [Hnd Hmem].
  split; [exact Hnd |]. intros x. unfold clean_nodeids. rewrite Hmem.
  split; [| auto]. intros [Hin | Hrest]; [| exact Hrest].
  apply elem_of_nil in Hin. contradiction.
Qed.

Lemma selection_has_app nodeid (tags more : list SelectionEntry) :
  selection_has nodeid (tags ++ more)
  = selection_has nodeid tags || selection_has nodeid more.
Proof. unfold selection_has. apply existsb_app. Qed.

(** X18.  [api_opc_selection_add] refuses an empty node id; otherwise the
    selection it saves holds the node id, keeps the tags there were and adds
    at most one, and the count answered is the length saved; adding the same
    tag again changes nothing. *)
Theorem selection_add_once payload_nodeid payload_label tags :
  (strip payload_nodeid = EmptyString ->
   api_opc_selection_add payload_nodeid payload_label tags = inl "nodeid is required")
  /\ (strip payload_nodeid <> EmptyString ->
      exists saved added,
        api_opc_selection_add payload_nodeid payload_label tags
        = inr (saved, len saved)
        /\ saved = default [] tags ++ added
        /\ (length added <= 1)%nat
        /\ selection_has (strip payload_nodeid) saved = true
        /\ api_opc_selection_add payload_nodeid payload_label (Some saved)
           = inr (saved, len saved)).
Proof.
  unfold api_opc_selection_add. split.
  - intros Hempty. rewrite Hempty. reflexivity.
  - intros Hid. rewrite (proj2 (is_empty_false _) Hid).
    destruct (selection_has (strip payload_nodeid) (default [] tags)) eqn:Hhas.
    + exists (default [] tags), []. cbn [default from_option id]. rewrite app_nil_r, Hhas.
      split; [reflexivity |]. split; [reflexivity |].
      split; [cbn; lia |]. split; reflexivity.
    + set (entry := EntryDict (strip payload_nodeid)
                      (str_or (strip payload_label) (strip payload_nodeid))).
      assert (Hnow : selection_has (strip payload_nodeid) (default [] tags ++ [entry])
                     = true).
      { rewrite selection_has_app, Hhas. cbn. rewrite strip_idempotent.
        rewrite String.eqb_refl. reflexivity. }
      exists (default [] tags ++ [entry]), [entry]. cbn [default from_option id]. rewrite Hnow.
      split; [reflexivity |]. split; [reflexivity |].
      split; [cbn; lia |]. split; reflexivity.
Qed.

Lemma normalize_items_tidy items : Forall tidy_tag (normalize_items items).
Proof.
  induction items as [| [s | n l |] items IH]; cbn [normalize_items];
    [constructor | | | exact IH].
  - destruct (is_empty (strip s)) eqn:Hid; [exact IH |].
    apply is_empty_false in Hid. constructor; [| exact IH].
    unfold tidy_tag. cbn. repeat split; first [exact Hid | apply strip_idempotent].
  - destruct (is_empty (strip n)) eqn:Hid; [exact IH |].
    apply is_empty_false in Hid. constructor; [| exact IH].
    unfold tidy_tag. cbn. split; [exact Hid |]. split.
    + unfold str_or. destruct (is_empty (strip l)) eqn:Hl;
        [exact Hid | apply is_empty_false; exact Hl].
    + split; [apply strip_idempotent | apply str_or_strip_idempotent].
Qed.

Lemma normalize_items_length items :
  (length (normalize_items items) <= length items)%nat.
Proof.
  induction items as [| [s | n l |] items IH]; cbn [normalize_items length];
    [lia | | | lia].
  - destruct (is_empty (strip s)); cbn [length]; lia.
  - destruct (is_empty (strip n)); cbn [length]; lia.
Qed.

Lemma normalize_items_of_tidy (saved : list SavedTag) :
  Forall tidy_tag saved -> normalize_items (map tag_as_process_item saved) = saved.
Proof.
  induction 1 as [| t saved (Hid & Hlabel & Hsid & Hslabel) Hrest IH]; [reflexivity |].
  cbn [map normalize_items tag_as_process_item].
  rewrite Hsid, Hslabel, IH.
  rewrite (proj2 (is_empty_false _) Hid). unfold str_or.
  rewrite (proj2 (is_empty_false _) Hlabel). destruct t; reflexivity.
Qed.

(** X19.  [normalize_process_tags] gives no tag for something that is not a
    list; from a list it gives at most one tag per item, each with a node id
    and a label that are not empty and carry no white space around them, a
    string standing for its own label; and normalizing its result gives the
    result back. *)
Theorem normalize_process_tags_tidy (items : list ProcessTagItem) :
  normalize_process_tags None = []
  /\ len (normalize_process_tags (Some items)) <= len items
  /\ Forall tidy_tag (normalize_process_tags (Some items))
  /\ (forall s, strip s <> EmptyString ->
                normalize_process_tags (Some [ItemStr s])
                = [mkSavedTag (strip s) (strip s)])
  /\ normalize_process_tags
       (Some (map tag_as_process_item (normalize_process_tags (Some items))))
     = normalize_process_tags (Some items).
Proof.
  cbn [normalize_process_tags].
  split; [reflexivity |].
  split; [unfold len; pose proof (normalize_items_length items); lia |].
  split; [apply normalize_items_tidy |].
  split.
  - intros s Hs. cbn [normalize_items].
    rewrite (proj2 (is_empty_false _) Hs). reflexivity.
  - apply normalize_items_of_tidy. apply normalize_items_tidy.
Qed.

(** ** Template ids *)

Lemma squeeze_class (bad : ascii -> bool) (P : ascii -> Prop) :
  (forall c, bad c = false -> P c) -> P dash ->
  forall in_run l, Forall P (squeeze bad in_run l).
Proof.
  intros Hgood Hdash in_run l. revert in_run.
  induction l as [| c l IH]; intros in_run; cbn [squeeze]; [constructor |].
  destruct (bad c) eqn:Hc.
  - destruct in_run; [apply IH | constructor; [exact Hdash | apply IH]].
  - constructor; [apply Hgood; exact Hc | apply IH].
Qed.

Lemma squeeze_keeps (bad : ascii -> bool) (P : ascii -> Prop) :
  P dash -> forall l in_run, Forall P l -> Forall P (squeeze bad in_run l).
Proof.
  intros Hdash. induction l as [| c l IH]; intros in_run Hall; cbn [squeeze];
    [constructor |].
  inversion Hall as [| c' l' Hc Hl]; subst.
  destruct (bad c).
  - destruct in_run; [apply IH; exact Hl | constructor; [exact Hdash | apply IH; exact Hl]].
  - constructor; [exact Hc | apply IH; exact Hl].
Qed.

Lemma single_dashes_cons c l :
  ~ (c = dash /\ head l = Some dash) -> single_dashes l -> single_dashes (c :: l).
Proof.
  intros Hpair Hrest. destruct l as [| d l]; [exact I |].
  cbn [single_dashes]. split; [| exact Hrest].
  intros [Hc Hd]. apply Hpair. split; [exact Hc | cbn; congruence].
Qed.

Lemma squeeze_dashes_single l : forall in_run,
  single_dashes (squeeze (Ascii.eqb dash) in_run l)
  /\ (in_run = true -> head (squeeze (Ascii.eqb dash) in_run l) <> Some dash).
Proof.
  induction l as [| c l IH]; intros in_run; cbn [squeeze].
  - split; [exact I | intros _; discriminate].
  - destruct (Ascii.eqb_spec dash c) as [<- | Hc].
    + destruct in_run.
      * apply IH.
      * split; [| discriminate].
        apply single_dashes_cons; [| apply IH].
        intros [_ Hhead]. exact (proj2 (IH true) eq_refl Hhead).
    + split.
      * apply single_dashes_cons; [| apply IH]. intros [Heq _]. congruence.
      * intros _. cbn. congruence.
Qed.

Lemma single_dashes_app_inv a b :
  single_dashes (a ++ b) -> single_dashes a /\ single_dashes b.
Proof.
  induction a as [| c a IH]; [cbn; auto |].
  intros Hall. destruct a as [| d a].
  - split; [exact I |]. destruct b as [| e b]; [exact I |]. exact (proj2 Hall).
  - destruct Hall as [Hpair Hrest]. destruct (IH Hrest) as [Ha Hb].
    split; [split; assumption | exact Hb].
Qed.

Lemma lstrip_by_suffix P l : exists h, l = h ++ lstrip_by P l.
Proof.
  induction l as [| c l (h & IH)]; [exists []; reflexivity |].
  cbn [lstrip_by]. destruct (P c).
  - exists (c :: h). cbn. f_equal. exact IH.
  - exists []. reflexivity.
Qed.

Lemma lstrip_by_head P l c : head (lstrip_by P l) = Some c -> P c = false.
Proof.
  induction l as [| d l IH]; [discriminate |].
  cbn [lstrip_by]. destruct (P d) eqn:Hd; [exact IH |].
  cbn. intros Heq. inversion Heq; subst. exact Hd.
Qed.

Lemma rstrip_by_cons_keep P c l :
  P c = false -> rstrip_by P (c :: l) = c :: rstrip_by P l.
Proof. intros Hc. cbn [rstrip_by]. destruct (rstrip_by P l); [rewrite Hc |]; reflexivity. Qed.

Lemma rstrip_by_prefix P l : exists t, l = rstrip_by P l ++ t.
Proof.
  induction l as [| c l (t & IH)]; [exists []; reflexivity |].
  cbn [rstrip_by]. destruct (rstrip_by P l) as [| d r].
  - destruct (P c); [exists (c :: l) | exists l]; reflexivity.
  - exists t. cbn. f_equal. exact IH.
Qed.

Lemma rstrip_by_last P l c : last (rstrip_by P l) = Some c -> P c = false.
Proof.
  induction l as [| d l IH]; [discriminate |].
  cbn [rstrip_by]. destruct (rstrip_by P l) as [| e r].
  - destruct (P d) eqn:Hd; [discriminate |].
    cbn. intros Heq. inversion Heq; subst. exact Hd.
  - intros Hlast. apply IH. exact Hlast.
Qed.

Lemma rstrip_by_head P l c :
  head l = Some c -> P c = false -> head (rstrip_by P l) = Some c.
Proof.
  destruct l as [| d l]; [discriminate |]. cbn [head]. intros Heq Hc.
  inversion Heq; subst. rewrite rstrip_by_cons_keep by exact Hc. reflexivity.
Qed.

Lemma ascii_lower_id_char c :
  is_template_char c = true -> is_id_char (ascii_lower c) = true.
Proof.
  destruct c as [[] [] [] [] [] [] [] []]; vm_compute; intros Hc;
    first [reflexivity | discriminate].
Qed.

Lemma ascii_lower_dash c : ascii_lower c = dash <-> c = dash.
Proof.
  destruct c as [[] [] [] [] [] [] [] []]; vm_compute; split; intros Hc;
    first [reflexivity | discriminate].
Qed.

Lemma single_dashes_lower l : single_dashes l -> single_dashes (map ascii_lower l).
Proof.
  induction l as [| c l IH]; [auto |]. intros Hall.
  destruct l as [| d l]; [exact I |].
  destruct Hall as [Hpair Hrest]. cbn [map single_dashes]. split.
  - intros [Hc Hd]. apply Hpair.
    split; [apply (proj1 (ascii_lower_dash c)) | apply (proj1 (ascii_lower_dash d))];
      assumption.
  - apply IH. exact Hrest.
Qed.

Lemma is_dash_false c : Ascii.eqb dash c = false -> c <> dash.
Proof. intros Hc Heq. subst c. discriminate. Qed.

Lemma template_well_formed : well_formed_id "template".
Proof.
  unfold well_formed_id. cbn.
  split; [discriminate |]. split; [repeat constructor |].
  split; [discriminate |]. split; [discriminate |].
  repeat split; intros [Ha Hb]; discriminate.
Qed.

(** X20.  [safe_template_id] always gives a well-formed id: not empty, made
    of lower-case letters, digits and dashes only (so no dot, slash or
    backslash finds its way into the template's file name), with no dash at
    either end and no two dashes side by side. *)
Theorem safe_template_id_well_formed value : well_formed_id (safe_template_id value).
Proof.
  unfold safe_template_id.
  set (first_pass := squeeze (fun c => negb (is_template_char c)) false
                       (list_ascii_of_string (strip value))).
  set (second_pass := squeeze (Ascii.eqb dash) false first_pass).
  remember (lstrip_by (Ascii.eqb dash) second_pass) as left_cut eqn:Hleft.
  remember (rstrip_by (Ascii.eqb dash) left_cut) as core eqn:Hcore_def.
  assert (Hfirst : Forall (fun c => is_template_char c = true) first_pass).
  { apply squeeze_class; [| reflexivity].
    intros c Hc. apply negb_false_iff. exact Hc. }
  assert (Hsecond : Forall (fun c => is_template_char c = true) second_pass).
  { apply squeeze_keeps; [reflexivity | exact Hfirst]. }
  destruct (lstrip_by_suffix (Ascii.eqb dash) second_pass) as (h & Hh).
  destruct (rstrip_by_prefix (Ascii.eqb dash) left_cut) as (t & Ht).
  rewrite <- Hleft in Hh. rewrite <- Hcore_def in Ht.
  assert (Hcore : Forall (fun c => is_template_char c = true) core).
  { rewrite Hh, Ht in Hsecond.
    apply Forall_app in Hsecond as [_ Hsecond].
    apply Forall_app in Hsecond as [Hsecond _]. exact Hsecond. }
  assert (Hsingle : single_dashes core).
  { pose proof (proj1 (squeeze_dashes_single first_pass false)) as Hall.
    fold second_pass in Hall. rewrite Hh, Ht in Hall.
    apply single_dashes_app_inv in Hall as [_ Hall].
    apply single_dashes_app_inv in Hall as [Hall _]. exact Hall. }
  assert (Hhead : head core <> Some dash).
  { intros Hdash.
    destruct left_cut as [| d left_cut']; [subst core; discriminate |].
    destruct (Ascii.eqb dash d) eqn:Hd.
    - assert (Hbad : head (lstrip_by (Ascii.eqb dash) second_pass) = Some d)
        by (rewrite <- Hleft; reflexivity).
      apply lstrip_by_head in Hbad. congruence.
    - rewrite (rstrip_by_cons_keep _ _ _ Hd) in Hcore_def. subst core.
      cbn in Hdash. inversion Hdash; subst d. discriminate. }
  assert (Hlast : last core <> Some dash).
  { intros Hdash. subst core. apply rstrip_by_last in Hdash. discriminate. }
  destruct (map ascii_lower core) as [| c rest] eqn:Hmap.
  - exact template_well_formed.
  - unfold well_formed_id. cbv zeta.
    rewrite list_ascii_of_string_of_list_ascii, <- Hmap.
    split; [rewrite Hmap; discriminate |].
    split.
    { apply Forall_fmap. eapply Forall_impl; [exact Hcore |].
      intros d Hd. cbn. apply ascii_lower_id_char. exact Hd. }
    split.
    { destruct core as [| d core']; [discriminate |].
      cbn [map head]. intros Heq. apply Hhead. cbn [head].
      injection Heq as Hd. apply (proj1 (ascii_lower_dash d)) in Hd. congruence. }
    split.
    { change (map ascii_lower core) with (ascii_lower <$> core).
      rewrite fmap_last. destruct (last core) as [d |]; [| discriminate].
      cbn [fmap option_fmap option_map]. intros Heq. apply Hlast.
      injection Heq as Hd. apply (proj1 (ascii_lower_dash d)) in Hd. congruence. }
    apply single_dashes_lower. exact Hsingle.
Qed.

Example safe_template_id_samples :
  safe_template_id "  My Dash_board / PID--Loop #1  " = "my-dash-board-pid-loop-1"
  /\ safe_template_id "../../etc/passwd" = "etc-passwd"
  /\ safe_template_id "---" = "template".
Proof. repeat split; reflexivity. Qed.

Lemma id_char_facts c :
  is_id_char c = true ->
  is_space c = false /\ is_template_char c = true /\ ascii_lower c = c.
Proof.
  destruct c as [[] [] [] [] [] [] [] []]; vm_compute; intros Hc;
    first [discriminate | repeat split; reflexivity].
Qed.

Lemma lstrip_unspaced s :
  Forall (fun c => is_space c = false) (list_ascii_of_string s) -> lstrip s = s.
Proof.
  destruct s as [| c s]; [reflexivity |]. cbn [list_ascii_of_string lstrip].
  intros Hall. inversion Hall as [| c' l' Hc Hl]; subst. rewrite Hc. reflexivity.
Qed.

Lemma rstrip_unspaced s :
  Forall (fun c => is_space c = false) (list_ascii_of_string s) -> rstrip s = s.
Proof.
  induction s as [| c s IH]; [reflexivity |]. cbn [list_ascii_of_string].
  intros Hall. inversion Hall as [| c' l' Hc Hl]; subst.
  rewrite (rstrip_no_space c s Hc), (IH Hl). reflexivity.
Qed.

Lemma squeeze_none (bad : ascii -> bool) l :
  Forall (fun c => bad c = false) l -> squeeze bad false l = l.
Proof.
  induction 1 as [| c l Hc Hl IH]; [reflexivity |].
  cbn [squeeze]. rewrite Hc, IH. reflexivity.
Qed.

Lemma squeeze_single_dashes l : forall in_run,
  single_dashes l ->
  (in_run = true -> head l <> Some dash) ->
  squeeze (Ascii.eqb dash) in_run l = l.
Proof.
  induction l as [| c l IH]; intros in_run Hsingle Hhead; [reflexivity |].
  cbn [squeeze].
  assert (Hrest : single_dashes l) by (destruct l; [exact I | exact (proj2 Hsingle)]).
  destruct (Ascii.eqb_spec dash c) as [<- | Hc].
  - destruct in_run; [exfalso; apply Hhead; reflexivity |].
    f_equal. apply IH; [exact Hrest |].
    intros _ Hnext. destruct l as [| d l]; [discriminate |].
    apply (proj1 Hsingle). split; [reflexivity | cbn in Hnext; congruence].
  - f_equal. apply IH; [exact Hrest | discriminate].
Qed.

Lemma lstrip_by_kept P l : (forall c, head l = Some c -> P c = false) -> lstrip_by P l = l.
Proof.
  destruct l as [| c l]; [reflexivity |]. intros Hhead. cbn [lstrip_by].
  rewrite (Hhead c eq_refl). reflexivity.
Qed.

Lemma rstrip_by_kept P l :
  (forall c, last l = Some c -> P c = false) -> rstrip_by P l = l.
Proof.
  induction l as [| c l IH]; [reflexivity |]. intros Hlast.
  cbn [rstrip_by]. destruct l as [| d l].
  - cbn. rewrite (Hlast c eq_refl). reflexivity.
  - rewrite IH by (intros e He; apply Hlast; exact He). reflexivity.
Qed.

(** X21.  [safe_template_id] leaves a well-formed id as it is; so cleaning an
    id twice is cleaning it once. *)
Theorem safe_template_id_keeps_well_formed s (Hwf : well_formed_id s) :
  safe_template_id s = s.
Proof.
  destruct Hwf as (Hne & Hchars & Hhead & Hlast & Hsingle).
  assert (Hunspaced : Forall (fun c => is_space c = false) (list_ascii_of_string s)).
  { eapply Forall_impl; [exact Hchars |]. intros c Hc. apply id_char_facts. exact Hc. }
  unfold safe_template_id, strip.
  rewrite (lstrip_unspaced s Hunspaced), (rstrip_unspaced s Hunspaced).
  rewrite (squeeze_none (fun c => negb (is_template_char c))).
  2:{ eapply Forall_impl; [exact Hchars |]. intros c Hc. cbn.
      destruct (id_char_facts c Hc) as (_ & -> & _). reflexivity. }
  rewrite (squeeze_single_dashes _ false Hsingle) by discriminate.
  rewrite lstrip_by_kept.
  2:{ intros c Hc. destruct (Ascii.eqb_spec dash c) as [<- | _];
        [contradiction | reflexivity]. }
  rewrite rstrip_by_kept.
  2:{ intros c Hc. destruct (Ascii.eqb_spec dash c) as [<- | _];
        [contradiction | reflexivity]. }
  assert (Hlower : map ascii_lower (list_ascii_of_string s) = list_ascii_of_string s).
  { clear Hne Hhead Hlast Hsingle Hunspaced.
    induction Hchars as [| c l Hc Hl IH]; [reflexivity |].
    cbn [map]. rewrite IH. destruct (id_char_facts c Hc) as (_ & _ & ->). reflexivity. }
  rewrite Hlower.
  destruct (list_ascii_of_string s) as [| c l] eqn:Hl; [contradiction |].
  rewrite <- Hl. apply string_of_list_ascii_of_string.
Qed.

(** A run of X21. *)
Lemma safe_template_id_keeps_well_formed_witness :
  safe_template_id "pid-loop-1" = "pid-loop-1".
Proof.
  apply safe_template_id_keeps_well_formed.
  unfold well_formed_id. cbn.
  split; [discriminate |]. split; [repeat constructor |].
  split; [discriminate |]. split; [discriminate |].
  repeat split; intros [Ha Hb]; discriminate.
Defined.
